(** * Weather_Drone: the telemetry firmware of [src/main.cpp]

    The firmware is one Arduino sketch for the ESP32: [setup] brings up the
    BME280 sensor, the GPS serial port, Wi-Fi and the Firebase client, and
    [loop] drains the GPS port and, every ten seconds once authentication is
    ready, writes the readings under [UsersData/<uid>/<field>].

    The sketch is embedded as a state-passing transition system.  Everything
    the sketch owns (its global variables, its control flow, the strings it
    builds) is modelled here; the vendor libraries (TinyGPS++, the BME280
    driver, the Firebase client, the Wi-Fi stack) are the environment: their
    answers are read from an oracle record, and the calls made to them are
    recorded in an output trace. *)

From Stdlib Require Import ZArith List String Ascii Bool Lia.
From Stdlib.Strings Require Import Byte.
From Stdlib Require Import DecimalString SpecFloat.
From Stdlib Require DecimalZ DecimalPos.
Import ListNotations.

Local Open Scope Z_scope.

(** ** C scalar types of the target *)

Module CTypes.

(** [unsigned long] is 32 bits wide on the ESP32 (and on the ESP8266). *)
Definition ULONG_BITS : Z := 32.

Definition ULONG_MODULUS : Z := 2 ^ ULONG_BITS.

(** Reduction of an integer to the range of [unsigned long]. *)
Definition ulong (z : Z) : Z := z mod ULONG_MODULUS.

(** [a - b] on [unsigned long] operands. *)
Definition ulong_sub (a b : Z) : Z := ulong (a - b).

(** Conversion of a [uint32_t] to [int] (32-bit two's complement). *)
Definition int_of_uint32 (z : Z) : Z :=
  let m := z mod 2 ^ 32 in
  if m <? 2 ^ 31 then m else m - 2 ^ 32.

(** [float] is IEEE binary32 and [double] is IEEE binary64, both carried
    by the Standard Library's specification floats. *)
Definition float32 : Type := spec_float.

Definition double : Type := spec_float.

Definition float32_div (x y : float32) : float32 := SFdiv 24 128 x y.

Definition double_div (x y : double) : double := SFdiv 53 1024 x y.

(** The literal [100.0F]: 13107200 * 2^-17. *)
Definition f100 : float32 := S754_finite false 13107200 (-17).

(** The literal [100.0]: 7036874417766400 * 2^-46. *)
Definition d100 : double := S754_finite false 7036874417766400 (-46).

(** Conversion of an [int32_t] to [double]; it is exact. *)
Definition double_of_int (z : Z) : double := binary_normalize 53 1024 z 0 false.

End CTypes.

Export CTypes.

(** ** Arduino [String] *)

Module ArduinoString.

Local Open Scope string_scope.

(** Line feed, the [\n] of the format strings. *)
Definition LF : string := String (ascii_of_nat 10) EmptyString.

(** What [println] appends. *)
Definition CRLF : string := String (ascii_of_nat 13) LF.

(** [s.c_str()] read back as a C string: the characters before the first
    NUL. *)
Fixpoint c_str (s : string) : string :=
  match s with
  | EmptyString => EmptyString
  | String c rest =>
      if Ascii.eqb c zero then EmptyString else String c (c_str rest)
  end.

(** [String(n)] for an integer argument, and [%d]: decimal digits with a
    leading minus sign for negatives. *)
Definition String_of_int (z : Z) : string :=
  NilZero.string_of_int (Z.to_int z).

End ArduinoString.

Export ArduinoString.

(** ** The send timer (lines 43-45 and 146-150) *)

Definition sendInterval : Z := 10000.

(** [currentTime - lastSendTime >= sendInterval] *)
Definition interval_elapsed (currentTime lastSendTime : Z) : bool :=
  sendInterval <=? ulong_sub currentTime lastSendTime.

(** The gate as a function of the timer variable alone: the answer of the
    test and the value of [lastSendTime] afterwards. *)
Definition shouldTick (currentTime lastSendTime : Z) : bool * Z :=
  if interval_elapsed currentTime lastSendTime
  then (true, currentTime)
  else (false, lastSendTime).

(** ** Calls into the vendor libraries *)

(** The value of a [Database.set<T>] call; [T] is one of [float],
    [double], [int] and [String]. *)
Inductive Scalar : Type :=
| SFloat (v : float32)
| SDouble (v : double)
| SInt (v : Z)
| SString (v : string).

(** The calls the sketch makes that act on the outside world, in the order
    they are made. *)
Inductive event : Type :=
| Serial_begin (baud : Z)
| Serial_print (s : string)
| Serial_println (s : string)
| Serial_println_double (v : double) (digits : Z)
| gpsSerial_begin (baud rxPin txPin : Z)
| WiFi_begin (ssid password : string)
| delay (ms : Z)
| ssl_client_setInsecure
| ssl_client_setHandshakeTimeout (seconds : Z)
| initializeApp (taskUid : string)
| app_getApp_Database
| Database_url (url : string)
| Firebase_printf (text : string)
| Database_set (path : string) (value : Scalar) (taskUid : string).

(** What the callback can ask of the [AsyncResult] it is handed. *)
Module AsyncResult.

Record t : Type := {
  isResult : bool;
  isEvent : bool;
  isDebug : bool;
  isError : bool;
  available : bool;
  uid : string;
  eventLog_message : string;
  eventLog_code : Z;
  debug : string;
  error_message : string;
  error_code : Z;
  c_str : string
}.

End AsyncResult.

(** The part of TinyGPS++ the sketch uses.  The accessors are functions of
    the parser object: [isValid] is [const], and the [updated] flag that
    [lat()] and the other getters clear is never read by the sketch. *)
Class TinyGPSPlus_api : Type := {
  TinyGPSPlus : Type;
  encode : TinyGPSPlus -> byte -> TinyGPSPlus;
  location_isValid : TinyGPSPlus -> bool;
  location_lat : TinyGPSPlus -> double;
  location_lng : TinyGPSPlus -> double;
  altitude_meters : TinyGPSPlus -> double;
  speed_kmph : TinyGPSPlus -> double;
  hdop_value : TinyGPSPlus -> Z;
  satellites_value : TinyGPSPlus -> Z;
  date_year : TinyGPSPlus -> Z;
  date_month : TinyGPSPlus -> Z;
  date_day : TinyGPSPlus -> Z;
  time_hour : TinyGPSPlus -> Z;
  time_minute : TinyGPSPlus -> Z;
  time_second : TinyGPSPlus -> Z
}.

(** What the environment answers while one step of the program runs. *)
Record Env : Type := {
  bme_begin : bool;
  WiFi_connected : bool;
  gpsSerial_arrived : list byte;
  app_loop_results : list AsyncResult.t;
  app_ready : bool;
  millis : Z;
  app_getUid : string;
  bme_readTemperature : float32;
  bme_readHumidity : float32;
  bme_readPressure : float32
}.

(** ** Compiled-in configuration (lines 16-28) *)

Definition WIFI_SSID : string := "REPLACE_WITH_YOUR_SSID".
Definition WIFI_PASSWORD : string := "REPLACE_WITH_YOUR_PASSWORD".
Definition DATABASE_URL : string := "REPLACE_WITH_YOUR_DATABASE_URL".
Definition RXD2 : Z := 16.
Definition TXD2 : Z := 17.
Definition GPS_BAUD : Z := 9600.

(** ** Global variables (lines 43-78) *)

(** "Variable to save USER UID" and "Variables to save database paths". *)
Record Paths : Type := {
  uid : string;
  databasePath : string;
  tempPath : string;
  humPath : string;
  presPath : string;
  latPath : string;
  lngPath : string;
  altPath : string;
  speedPath : string;
  hdopPath : string;
  satellitesPath : string;
  timeUTCPath : string
}.

(** The readings kept next to [bme]. *)
Record BmeVars : Type := {
  temperature : float32;
  humidity : float32;
  pressure : float32
}.

(** The readings kept next to [gps]. *)
Record GpsVars : Type := {
  latitude : double;
  longitude : double;
  altitude : double;
  speed : double;
  hdop : double;
  satellites : Z;
  timeUTC : string
}.

Record Globals : Type := {
  lastSendTime : Z;
  paths : Paths;
  bme_vars : BmeVars;
  gps_vars : GpsVars
}.

(** Static initialisation: [lastSendTime = 0], empty strings, zeroes. *)
Definition initial_Paths : Paths :=
  {| uid := EmptyString; databasePath := EmptyString; tempPath := EmptyString; humPath := EmptyString;
     presPath := EmptyString; latPath := EmptyString; lngPath := EmptyString; altPath := EmptyString;
     speedPath := EmptyString; hdopPath := EmptyString; satellitesPath := EmptyString;
     timeUTCPath := EmptyString |}.

Definition initial_BmeVars : BmeVars :=
  {| temperature := S754_zero false; humidity := S754_zero false;
     pressure := S754_zero false |}.

Definition initial_GpsVars : GpsVars :=
  {| latitude := S754_zero false; longitude := S754_zero false;
     altitude := S754_zero false; speed := S754_zero false;
     hdop := S754_zero false; satellites := 0; timeUTC := EmptyString |}.

Definition initial_Globals : Globals :=
  {| lastSendTime := 0; paths := initial_Paths;
     bme_vars := initial_BmeVars; gps_vars := initial_GpsVars |}.

(** ** Path construction (lines 154-167) *)

Definition update_paths (app_uid : string) : Paths :=
  let uid' := ArduinoString.c_str app_uid in
  let databasePath' := ("UsersData/" ++ uid')%string in
  {| uid := uid';
     databasePath := databasePath';
     tempPath := (databasePath' ++ "/temperature")%string;
     humPath := (databasePath' ++ "/humidity")%string;
     presPath := (databasePath' ++ "/pressure")%string;
     latPath := (databasePath' ++ "/latitude")%string;
     lngPath := (databasePath' ++ "/longitude")%string;
     altPath := (databasePath' ++ "/altitude")%string;
     speedPath := (databasePath' ++ "/speed")%string;
     hdopPath := (databasePath' ++ "/hdop")%string;
     satellitesPath := (databasePath' ++ "/satellites")%string;
     timeUTCPath := (databasePath' ++ "/timeUTC")%string |}.

(** ** Sensor readings (lines 170-172) *)

Definition read_bme (e : Env) : BmeVars :=
  {| temperature := bme_readTemperature e;
     humidity := bme_readHumidity e;
     pressure := float32_div (bme_readPressure e) f100 |}.

(** ** The result callback (lines 235-251) *)

Definition printf_event (r : AsyncResult.t) : string :=
  ("Event task: " ++ ArduinoString.c_str (AsyncResult.uid r)
   ++ ", msg: " ++ ArduinoString.c_str (AsyncResult.eventLog_message r)
   ++ ", code: " ++ String_of_int (AsyncResult.eventLog_code r) ++ LF)%string.

Definition printf_debug (r : AsyncResult.t) : string :=
  ("Debug task: " ++ ArduinoString.c_str (AsyncResult.uid r)
   ++ ", msg: " ++ ArduinoString.c_str (AsyncResult.debug r) ++ LF)%string.

Definition printf_error (r : AsyncResult.t) : string :=
  ("Error task: " ++ ArduinoString.c_str (AsyncResult.uid r)
   ++ ", msg: " ++ ArduinoString.c_str (AsyncResult.error_message r)
   ++ ", code: " ++ String_of_int (AsyncResult.error_code r) ++ LF)%string.

Definition printf_payload (r : AsyncResult.t) : string :=
  ("task: " ++ ArduinoString.c_str (AsyncResult.uid r)
   ++ ", payload: " ++ ArduinoString.c_str (AsyncResult.c_str r) ++ LF)%string.

(** How many of the four kinds the result reports at once. *)
Definition kinds_reported (r : AsyncResult.t) : nat :=
  (Nat.b2n (AsyncResult.isEvent r) + Nat.b2n (AsyncResult.isDebug r)
   + Nat.b2n (AsyncResult.isError r) + Nat.b2n (AsyncResult.available r))%nat.

Section Sketch.

Context {gps_api : TinyGPSPlus_api}.

(** ** Program state *)

(** Where control is between two steps. *)
Inductive Phase : Type :=
| AtReset
| InitBME_spin
| WiFi_wait
| InLoop.

Record World : Type := {
  pc : Phase;
  globals : Globals;
  gps : TinyGPSPlus;
  gpsSerial : list byte;
  out : list event
}.

Definition emit (evs : list event) (w : World) : World :=
  {| pc := pc w; globals := globals w; gps := gps w;
     gpsSerial := gpsSerial w; out := out w ++ evs |}.

Definition set_pc (p : Phase) (w : World) : World :=
  {| pc := p; globals := globals w; gps := gps w;
     gpsSerial := gpsSerial w; out := out w |}.

Definition set_globals (g : Globals) (w : World) : World :=
  {| pc := pc w; globals := g; gps := gps w;
     gpsSerial := gpsSerial w; out := out w |}.

Definition set_lastSendTime (t : Z) (w : World) : World :=
  set_globals
    {| lastSendTime := t; paths := paths (globals w);
       bme_vars := bme_vars (globals w); gps_vars := gps_vars (globals w) |}
    w.

(** Bytes the UART has received since the previous step join the receive
    buffer of [gpsSerial]. *)
Definition receive (e : Env) (w : World) : World :=
  {| pc := pc w; globals := globals w; gps := gps w;
     gpsSerial := gpsSerial w ++ gpsSerial_arrived e; out := out w |}.

(** ** [processData] *)

Definition processData (aResult : AsyncResult.t) (w : World) : World :=
  if negb (AsyncResult.isResult aResult) then w
  else
    let w := if AsyncResult.isEvent aResult
             then emit [Firebase_printf (printf_event aResult)] w else w in
    let w := if AsyncResult.isDebug aResult
             then emit [Firebase_printf (printf_debug aResult)] w else w in
    let w := if AsyncResult.isError aResult
             then emit [Firebase_printf (printf_error aResult)] w else w in
    let w := if AsyncResult.available aResult
             then emit [Firebase_printf (printf_payload aResult)] w else w in
    w.

(** [app.loop()]: the client hands every result that became ready to the
    registered callback. *)
Definition app_loop (e : Env) (w : World) : World :=
  fold_left (fun w r => processData r w) (app_loop_results e) w.

(** ** Reading the GPS port (lines 136-139) *)

(** [while (gpsSerial.available() > 0) gps.encode(gpsSerial.read());] on a
    receive buffer [rx]: the parser and the buffer when the loop exits. *)
Fixpoint gps_while (rx : list byte) (g : TinyGPSPlus) : TinyGPSPlus * list byte :=
  match rx with
  | [] => (g, [])
  | c :: rest => gps_while rest (encode g c)
  end.

Definition read_gps (w : World) : World :=
  let r := gps_while (gpsSerial w) (gps w) in
  {| pc := pc w; globals := globals w; gps := fst r;
     gpsSerial := snd r; out := out w |}.

(** ** The GPS snapshot (lines 177-190) *)

Definition format_timeUTC (g : TinyGPSPlus) : string :=
  ((((((((((String_of_int (date_year g) ++ "/")
           ++ String_of_int (date_month g)) ++ "/")
         ++ String_of_int (date_day g)) ++ ",")
       ++ String_of_int (time_hour g)) ++ ":")
     ++ String_of_int (time_minute g)) ++ ":")
   ++ String_of_int (time_second g))%string.

Definition snapshot_gps (g : TinyGPSPlus) : GpsVars :=
  {| latitude := location_lat g;
     longitude := location_lng g;
     altitude := altitude_meters g;
     speed := speed_kmph g;
     hdop := double_div (double_of_int (hdop_value g)) d100;
     satellites := int_of_uint32 (satellites_value g);
     timeUTC := format_timeUTC g |}.

(** Lines 192-206. *)
Definition print_gps (v : GpsVars) : list event :=
  [ Serial_print "LAT: "; Serial_println_double (latitude v) 6;
    Serial_print "LONG: "; Serial_println_double (longitude v) 6;
    Serial_print "SPEED (km/h) = "; Serial_println_double (speed v) 2;
    Serial_print "ALT (m) = "; Serial_println_double (altitude v) 2;
    Serial_print "HDOP = "; Serial_println_double (hdop v) 2;
    Serial_print "Satellites = "; Serial_println (String_of_int (satellites v));
    Serial_print "Time in UTC: "; Serial_println (timeUTC v);
    Serial_println EmptyString ].

(** ** The uploads (lines 216-230) *)

Definition send_bme (p : Paths) (b : BmeVars) : list event :=
  [ Database_set (tempPath p) (SFloat (temperature b)) "RTDB_Send_Temperature";
    Database_set (humPath p) (SFloat (humidity b)) "RTDB_Send_Humidity";
    Database_set (presPath p) (SFloat (pressure b)) "RTDB_Send_Pressure" ].

Definition send_gps (p : Paths) (v : GpsVars) : list event :=
  [ Database_set (latPath p) (SDouble (latitude v)) "RTDB_Send_Latitude";
    Database_set (lngPath p) (SDouble (longitude v)) "RTDB_Send_Longitude";
    Database_set (altPath p) (SDouble (altitude v)) "RTDB_Send_Altitude";
    Database_set (speedPath p) (SDouble (speed v)) "RTDB_Send_Speed";
    Database_set (hdopPath p) (SDouble (hdop v)) "RTDB_Send_HDOP";
    Database_set (satellitesPath p) (SInt (satellites v)) "RTDB_Send_Satellites";
    Database_set (timeUTCPath p) (SString (timeUTC v)) "RTDB_Send_TimeUTC" ].

(** ** The body of the ten-second block (lines 152-230)

    [lastSendTime] has been updated when this runs. *)
Definition tick (e : Env) (w : World) : World :=
  let g := globals w in
  let w := emit [Firebase_printf
                   ("User UID: " ++ ArduinoString.c_str (app_getUid e) ++ LF)] w in
  let p := update_paths (app_getUid e) in
  let b := read_bme e in
  let valid := location_isValid (gps w) in
  let v := if valid then snapshot_gps (gps w) else gps_vars g in
  let w := if valid then emit (print_gps v) w
           else emit [Serial_println "GPS location not valid yet"] w in
  let w := emit [Serial_println ("Writing to: " ++ tempPath p)] w in
  let w := emit (send_bme p b) w in
  let w := if location_isValid (gps w) then emit (send_gps p v) w else w in
  set_globals
    {| lastSendTime := lastSendTime g; paths := p;
       bme_vars := b; gps_vars := v |}
    w.

(** ** [loop] (lines 130-233) *)

Definition loop (e : Env) (w : World) : World :=
  let w := app_loop e w in
  let w := read_gps w in
  if app_ready e then
    let currentTime := millis e in
    let gate := shouldTick currentTime (lastSendTime (globals w)) in
    let w := set_lastSendTime (snd gate) w in
    if fst gate then tick e w else w
  else w.

(** ** [setup] (lines 80-128) *)

(** A call either returns or never does. *)
Inductive outcome : Type :=
| Returns (w : World)
| Spins (w : World).

Definition initBME (e : Env) (w : World) : outcome :=
  if negb (bme_begin e)
  then Spins (emit [Serial_println
                      "Could not find a valid BME280 sensor, check wiring!"] w)
  else Returns (emit [Serial_println "BME280 Initialized with success"] w).

Definition initGPS (w : World) : World :=
  emit [gpsSerial_begin GPS_BAUD RXD2 TXD2;
        Serial_println "GPS Serial started at 9600 baud rate"] w.

(** [setup] from its first line to the first test of the Wi-Fi loop. *)
Definition setup_begin (e : Env) (w : World) : World :=
  let w := emit [Serial_begin 115200] w in
  match initBME e w with
  | Spins w => set_pc InitBME_spin w
  | Returns w =>
      let w := initGPS w in
      let w := emit [WiFi_begin WIFI_SSID WIFI_PASSWORD;
                     Serial_print "Connecting to Wi-Fi"] w in
      set_pc WiFi_wait w
  end.

(** One test of [WiFi.status() != WL_CONNECTED]: another round of the
    loop, or the rest of [setup]. *)
Definition setup_wifi (e : Env) (w : World) : World :=
  if negb (WiFi_connected e)
  then emit [Serial_print "."; delay 300] w
  else
    let w := emit [Serial_println EmptyString;
                   ssl_client_setInsecure;
                   ssl_client_setHandshakeTimeout 5;
                   initializeApp "🔐 authTask";
                   app_getApp_Database;
                   Database_url DATABASE_URL] w in
    set_pc InLoop w.

(** ** The whole program *)

Definition step (e : Env) (w : World) : World :=
  match pc w with
  | AtReset => setup_begin e w
  | InitBME_spin => w
  | WiFi_wait => setup_wifi e (receive e w)
  | InLoop => loop e (receive e w)
  end.

Fixpoint run (es : list Env) (w : World) : World :=
  match es with
  | [] => w
  | e :: rest => run rest (step e w)
  end.

(** The machine at reset, around a freshly constructed parser. *)
Definition boot (g : TinyGPSPlus) : World :=
  {| pc := AtReset; globals := initial_Globals; gps := g;
     gpsSerial := []; out := [] |}.

(** ** Observations on the output trace *)

Definition upload_of (ev : event) : option (string * Scalar) :=
  match ev with
  | Database_set path value _ => Some (path, value)
  | _ => None
  end.

(** The database writes of a trace, in order. *)
Fixpoint uploads (evs : list event) : list (string * Scalar) :=
  match evs with
  | [] => []
  | ev :: rest =>
      match upload_of ev with
      | Some u => u :: uploads rest
      | None => uploads rest
      end
  end.

Definition is_WiFi_begin (ev : event) : bool :=
  match ev with
  | WiFi_begin _ _ => true
  | _ => false
  end.

End Sketch.

(** What [processData] prints for a result, kind by kind. *)
Definition processData_prints (r : AsyncResult.t) : list event :=
  if AsyncResult.isResult r then
    (if AsyncResult.isEvent r then [Firebase_printf (printf_event r)] else [])
    ++ (if AsyncResult.isDebug r then [Firebase_printf (printf_debug r)] else [])
    ++ (if AsyncResult.isError r then [Firebase_printf (printf_error r)] else [])
    ++ (if AsyncResult.available r then [Firebase_printf (printf_payload r)] else [])
  else [].

(** The events appended to the trace between [w] and a later [w']. *)
Definition emitted {gps_api : TinyGPSPlus_api} (w w' : World) : list event :=
  skipn (List.length (out w)) (out w').

(** Two machine states that differ at most in the trace written so far. *)
Definition same_state {gps_api : TinyGPSPlus_api} (w1 w2 : World) : Prop :=
  pc w1 = pc w2 /\ globals w1 = globals w2 /\ gps w1 = gps w2
  /\ gpsSerial w1 = gpsSerial w2.

(** ** A bench receiver and bench inputs

    To run the sketch on concrete inputs the parser has to be something.
    This stand-in reports a fix, at a fixed place and time, once it has been
    fed the byte [A] (the status field of a valid RMC sentence). *)

Module Bench.

(** 4.6097 as a binary64. *)
Definition lat0 : double := S754_finite false 5190060800572444 (-50).

(** -74.0817 as a binary64. *)
Definition lng0 : double := S754_finite true 5213036195546451 (-46).

(** 2640.0 as a binary64. *)
Definition alt0 : double := S754_finite false 5805421394657280 (-41).

Definition receiver : TinyGPSPlus_api :=
  {| TinyGPSPlus := bool;
     encode := fun g c => g || Byte.eqb c x41;
     location_isValid := fun g => g;
     location_lat := fun _ => lat0;
     location_lng := fun _ => lng0;
     altitude_meters := fun _ => alt0;
     speed_kmph := fun _ => S754_zero false;
     hdop_value := fun _ => 150;
     satellites_value := fun _ => 7;
     date_year := fun _ => 2024;
     date_month := fun _ => 3;
     date_day := fun _ => 9;
     time_hour := fun _ => 14;
     time_minute := fun _ => 5;
     time_second := fun _ => 0 |}.

(** 21.5, 40.0 and 101325.0 as binary32. *)
Definition t21_5 : float32 := S754_finite false 11272192 (-19).
Definition h40 : float32 := S754_finite false 10485760 (-18).
Definition p101325 : float32 := S754_finite false 12969600 (-7).

(** An oracle for a [loop] call: authentication ready, the clock at
    [now], the session of [app_uid], [rx] arriving on the GPS port. *)
Definition env (now : Z) (app_uid : string) (rx : list byte) : Env :=
  {| bme_begin := true;
     WiFi_connected := true;
     gpsSerial_arrived := rx;
     app_loop_results := [];
     app_ready := true;
     millis := now;
     app_getUid := app_uid;
     bme_readTemperature := t21_5;
     bme_readHumidity := h40;
     bme_readPressure := p101325 |}.

(** The machine as [setup] leaves it. *)
Definition ready_world : @World receiver :=
  @Build_World receiver InLoop initial_Globals false [] [].

(** The same machine holding the GPS variables of an earlier fix. *)
Definition stale_world : @World receiver :=
  @Build_World receiver InLoop
    {| lastSendTime := 0; paths := initial_Paths;
       bme_vars := initial_BmeVars;
       gps_vars := {| latitude := lat0; longitude := lng0; altitude := alt0;
                      speed := S754_zero false; hdop := S754_zero false;
                      satellites := 4; timeUTC := "2024/3/9,13:55:0" |} |}
    false [] [].

(** An oracle for the first step when the BME280 does not answer. *)
Definition without_sensor : Env :=
  {| bme_begin := false;
     WiFi_connected := false;
     gpsSerial_arrived := [];
     app_loop_results := [];
     app_ready := false;
     millis := 0;
     app_getUid := EmptyString;
     bme_readTemperature := S754_zero false;
     bme_readHumidity := S754_zero false;
     bme_readPressure := S754_zero false |}.

(** An upload that failed with code -1 and message "timeout". *)
Definition timeout_error : AsyncResult.t :=
  {| AsyncResult.isResult := true;
     AsyncResult.isEvent := false;
     AsyncResult.isDebug := false;
     AsyncResult.isError := true;
     AsyncResult.available := false;
     AsyncResult.uid := "RTDB_Send_Temperature";
     AsyncResult.eventLog_message := EmptyString;
     AsyncResult.eventLog_code := 0;
     AsyncResult.debug := EmptyString;
     AsyncResult.error_message := "timeout";
     AsyncResult.error_code := -1;
     AsyncResult.c_str := EmptyString |}.

(** A result that reports an event and a debug message together. *)
Definition event_and_debug : AsyncResult.t :=
  {| AsyncResult.isResult := true;
     AsyncResult.isEvent := true;
     AsyncResult.isDebug := true;
     AsyncResult.isError := false;
     AsyncResult.available := false;
     AsyncResult.uid := "RTDB_Send_Humidity";
     AsyncResult.eventLog_message := "connecting";
     AsyncResult.eventLog_code := 10;
     AsyncResult.debug := "Connecting to server...";
     AsyncResult.error_message := EmptyString;
     AsyncResult.error_code := 0;
     AsyncResult.c_str := EmptyString |}.

End Bench.

(** ** Further observations *)

(** The ten path variables, in the order of their assignments. *)
Definition path_list (p : Paths) : list string :=
  [tempPath p; humPath p; presPath p; latPath p; lngPath p; altPath p;
   speedPath p; hdopPath p; satellitesPath p; timeUTCPath p].

(** The path variables are in step with the uid variable: all still empty,
    or all built from it. *)
Definition paths_consistent (p : Paths) : Prop :=
  p = initial_Paths \/ p = update_paths (uid p).

(** The six numbers that go into [timeUTC]. *)
Definition time_fields {gps_api : TinyGPSPlus_api} (g : TinyGPSPlus) : list Z :=
  [date_year g; date_month g; date_day g;
   time_hour g; time_minute g; time_second g].

(** Where control can get to from a phase: [setup] runs forward only, and
    neither [loop] nor the spin in [initBME] is ever left. *)
Definition phase_reach (p q : Phase) : bool :=
  match p, q with
  | AtReset, _ => true
  | InitBME_spin, InitBME_spin => true
  | WiFi_wait, WiFi_wait => true
  | WiFi_wait, InLoop => true
  | InLoop, InLoop => true
  | _, _ => false
  end.

(** The oracle with the results handed to the callback removed. *)
Definition without_results (e : Env) : Env :=
  {| bme_begin := bme_begin e;
     WiFi_connected := WiFi_connected e;
     gpsSerial_arrived := gpsSerial_arrived e;
     app_loop_results := [];
     app_ready := app_ready e;
     millis := millis e;
     app_getUid := app_getUid e;
     bme_readTemperature := bme_readTemperature e;
     bme_readHumidity := bme_readHumidity e;
     bme_readPressure := bme_readPressure e |}.

(** An oracle for a step of [setup]: the sensor answers, Wi-Fi is
    connected or not. *)
Definition setup_env (connected : bool) : Env :=
  {| bme_begin := true;
     WiFi_connected := connected;
     gpsSerial_arrived := [];
     app_loop_results := [];
     app_ready := false;
     millis := 0;
     app_getUid := EmptyString;
     bme_readTemperature := S754_zero false;
     bme_readHumidity := S754_zero false;
     bme_readPressure := S754_zero false |}.

(** Whether a step runs the ten-second block. *)
Definition runs_block {gps_api : TinyGPSPlus_api} (e : Env) (w : World) : bool :=
  match pc w with
  | InLoop =>
      app_ready e && interval_elapsed (millis e) (lastSendTime (globals w))
  | _ => false
  end.

(** A decimal digit. *)
Definition is_digit (c : ascii) : bool :=
  ((48 <=? nat_of_ascii c) && (nat_of_ascii c <=? 57))%nat.

Fixpoint digits_only (s : string) : bool :=
  match s with
  | EmptyString => true
  | String c rest => is_digit c && digits_only rest
  end.

(** * Properties *)

Section Properties.

Context {gps_api : TinyGPSPlus_api}.

(** ** Frame lemmas for the state-passing primitives *)

Lemma uploads_app (a b : list event) :
  uploads (a ++ b) = uploads a ++ uploads b.
Proof.
  induction a as [|ev a IH]; simpl; [reflexivity|].
  destruct (upload_of ev); simpl; rewrite IH; reflexivity.
Qed.

Lemma emitted_app (w w' : World) (evs : list event) :
  out w' = out w ++ evs -> emitted w w' = evs.
Proof.
  intros H. unfold emitted. rewrite H.
  rewrite skipn_app, skipn_all, Nat.sub_diag. reflexivity.
Qed.

Lemma emitted_refl (w : World) : emitted w w = [].
Proof. apply emitted_app. rewrite app_nil_r. reflexivity. Qed.

Lemma world_eta (w : World) :
  {| pc := pc w; globals := globals w; gps := gps w;
     gpsSerial := gpsSerial w; out := out w |} = w.
Proof. destruct w; reflexivity. Qed.

Lemma globals_eta (g : Globals) :
  {| lastSendTime := lastSendTime g; paths := paths g;
     bme_vars := bme_vars g; gps_vars := gps_vars g |} = g.
Proof. destruct g; reflexivity. Qed.

Lemma set_lastSendTime_same (w : World) :
  set_lastSendTime (lastSendTime (globals w)) w = w.
Proof.
  unfold set_lastSendTime, set_globals. rewrite globals_eta. apply world_eta.
Qed.

(** ** The gate *)

Lemma interval_elapsed_iff (now last : Z) :
  interval_elapsed now last = true <-> sendInterval <= ulong_sub now last.
Proof. unfold interval_elapsed. apply Z.leb_le. Qed.

Lemma shouldTick_fst (now last : Z) :
  fst (shouldTick now last) = interval_elapsed now last.
Proof. unfold shouldTick. destruct (interval_elapsed now last); reflexivity. Qed.

Lemma shouldTick_snd (now last : Z) :
  snd (shouldTick now last) = if interval_elapsed now last then now else last.
Proof. unfold shouldTick. destruct (interval_elapsed now last); reflexivity. Qed.

(** Unsigned subtraction recovers the elapsed time across a wrap of the
    millisecond counter. *)
Lemma ulong_sub_elapsed (last d : Z) :
  0 <= d < ULONG_MODULUS -> ulong_sub (ulong (last + d)) last = d.
Proof.
  intros Hd. unfold ulong_sub, ulong.
  rewrite Zminus_mod_idemp_l.
  replace (last + d - last) with d by lia.
  apply Z.mod_small. exact Hd.
Qed.

(** ** The callback *)

Lemma processData_out (r : AsyncResult.t) (w : World) :
  out (processData r w) = out w ++ processData_prints r.
Proof.
  unfold processData, processData_prints.
  destruct (AsyncResult.isResult r), (AsyncResult.isEvent r),
    (AsyncResult.isDebug r), (AsyncResult.isError r),
    (AsyncResult.available r);
    simpl; rewrite <- ?app_assoc, ?app_nil_r; reflexivity.
Qed.

Lemma processData_frame (r : AsyncResult.t) (w : World) :
  pc (processData r w) = pc w /\ globals (processData r w) = globals w
  /\ gps (processData r w) = gps w
  /\ gpsSerial (processData r w) = gpsSerial w.
Proof.
  unfold processData.
  destruct (AsyncResult.isResult r), (AsyncResult.isEvent r),
    (AsyncResult.isDebug r), (AsyncResult.isError r),
    (AsyncResult.available r);
    simpl; repeat split; reflexivity.
Qed.

Lemma processData_prints_uploads (r : AsyncResult.t) :
  uploads (processData_prints r) = [].
Proof.
  unfold processData_prints.
  destruct (AsyncResult.isResult r), (AsyncResult.isEvent r),
    (AsyncResult.isDebug r), (AsyncResult.isError r),
    (AsyncResult.available r); reflexivity.
Qed.

Lemma processData_prints_length (r : AsyncResult.t) :
  List.length (processData_prints r)
  = if AsyncResult.isResult r then kinds_reported r else 0%nat.
Proof.
  unfold processData_prints, kinds_reported.
  destruct (AsyncResult.isResult r), (AsyncResult.isEvent r),
    (AsyncResult.isDebug r), (AsyncResult.isError r),
    (AsyncResult.available r); reflexivity.
Qed.

(** [app.loop()] changes nothing but the trace, and writes nothing to the
    database. *)
Lemma callbacks_frame (rs : list AsyncResult.t) (w : World) :
  let w' := fold_left (fun w r => processData r w) rs w in
  pc w' = pc w /\ globals w' = globals w /\ gps w' = gps w
  /\ gpsSerial w' = gpsSerial w
  /\ exists evs, out w' = out w ++ evs /\ uploads evs = [].
Proof.
  revert w. induction rs as [|r rs IH]; intros w; simpl.
  - repeat split. exists []. rewrite app_nil_r. split; reflexivity.
  - destruct (IH (processData r w)) as (Hpc & Hg & Hgps & Hrx & evs & Hout & Hup).
    destruct (processData_frame r w) as (Fpc & Fg & Fgps & Frx).
    simpl in *. repeat split; try congruence.
    exists (processData_prints r ++ evs). split.
    + rewrite Hout, processData_out, app_assoc. reflexivity.
    + rewrite uploads_app, processData_prints_uploads, Hup. reflexivity.
Qed.

(** ** The GPS port *)

Lemma gps_while_spec (rx : list byte) (g : TinyGPSPlus) :
  gps_while rx g = (fold_left encode rx g, []).
Proof.
  revert g. induction rx as [|c rx IH]; intros g; simpl; [reflexivity|].
  apply IH.
Qed.

(** ** One tick *)

Lemma tick_frame (e : Env) (w : World) :
  pc (tick e w) = pc w /\ gps (tick e w) = gps w
  /\ gpsSerial (tick e w) = gpsSerial w
  /\ globals (tick e w)
     = {| lastSendTime := lastSendTime (globals w);
          paths := update_paths (app_getUid e);
          bme_vars := read_bme e;
          gps_vars := if location_isValid (gps w)
                      then snapshot_gps (gps w) else gps_vars (globals w) |}.
Proof.
  unfold tick. cbn.
  destruct (location_isValid (gps w)) eqn:Hvalid; cbn; rewrite ?Hvalid; cbn;
    repeat split; reflexivity.
Qed.

Lemma tick_uploads (e : Env) (w : World) :
  exists evs,
    out (tick e w) = out w ++ evs
    /\ uploads evs
       = uploads (send_bme (update_paths (app_getUid e)) (read_bme e))
         ++ (if location_isValid (gps w)
             then uploads (send_gps (update_paths (app_getUid e))
                             (snapshot_gps (gps w)))
             else []).
Proof.
  unfold tick. cbn.
  destruct (location_isValid (gps w)) eqn:Hvalid; cbn; rewrite ?Hvalid; cbn;
    eexists; (split; [rewrite <- !app_assoc; reflexivity | reflexivity]).
Qed.

(** ** One call of [loop] *)

Lemma loop_port (e : Env) (w : World) :
  pc (loop e w) = pc w
  /\ gps (loop e w) = fold_left encode (gpsSerial w) (gps w)
  /\ gpsSerial (loop e w) = [].
Proof.
  unfold loop, app_loop.
  destruct (callbacks_frame (app_loop_results e) w)
    as (Hpc & Hg & Hgps & Hrx & _).
  simpl in Hpc, Hg, Hgps, Hrx.
  set (w1 := fold_left _ _ w) in *.
  assert (Hr : pc (read_gps w1) = pc w
               /\ gps (read_gps w1) = fold_left encode (gpsSerial w) (gps w)
               /\ gpsSerial (read_gps w1) = []).
  { unfold read_gps. simpl. rewrite gps_while_spec. simpl.
    rewrite Hpc, Hgps, Hrx. repeat split. }
  destruct (app_ready e); [|exact Hr].
  cbv zeta. destruct (fst (shouldTick _ _)); [|exact Hr].
  match goal with
  | |- context [tick e ?x] =>
      destruct (tick_frame e x) as (Tpc & Tgps & Trx & _)
  end.
  rewrite Tpc, Tgps, Trx. exact Hr.
Qed.

(** When authentication is ready and the interval has elapsed. *)
Lemma loop_fires (e : Env) (w : World) :
  app_ready e = true ->
  interval_elapsed (millis e) (lastSendTime (globals w)) = true ->
  let fix_ := fold_left encode (gpsSerial w) (gps w) in
  globals (loop e w)
  = {| lastSendTime := millis e;
       paths := update_paths (app_getUid e);
       bme_vars := read_bme e;
       gps_vars := if location_isValid fix_
                   then snapshot_gps fix_ else gps_vars (globals w) |}
  /\ uploads (emitted w (loop e w))
     = uploads (send_bme (update_paths (app_getUid e)) (read_bme e))
       ++ (if location_isValid fix_
           then uploads (send_gps (update_paths (app_getUid e))
                           (snapshot_gps fix_))
           else []).
Proof.
  intros Hready Hel fix_. unfold loop, app_loop.
  destruct (callbacks_frame (app_loop_results e) w)
    as (Hpc & Hg & Hgps & Hrx & cb & Hout & Hup).
  simpl in Hpc, Hg, Hgps, Hrx, Hout.
  set (w1 := fold_left _ _ w) in *.
  rewrite Hready. cbv zeta.
  assert (Hg1 : globals (read_gps w1) = globals w) by exact Hg.
  rewrite Hg1, shouldTick_fst, shouldTick_snd, Hel.
  set (w2 := set_lastSendTime (millis e) (read_gps w1)).
  assert (Hgps2 : gps w2 = fix_).
  { unfold w2, read_gps. simpl. rewrite gps_while_spec. simpl.
    rewrite Hgps, Hrx. reflexivity. }
  assert (Hout2 : out w2 = out w ++ cb) by exact Hout.
  destruct (tick_frame e w2) as (_ & _ & _ & Tg).
  destruct (tick_uploads e w2) as (evs & Tout & Tup).
  split.
  - rewrite Tg, Hgps2. unfold w2. cbn [set_lastSendTime set_globals globals
      lastSendTime paths bme_vars gps_vars read_gps]. rewrite Hg. reflexivity.
  - rewrite (emitted_app w (tick e w2) (cb ++ evs)).
    + rewrite uploads_app, Hup, Tup, Hgps2. reflexivity.
    + rewrite Tout, Hout2, app_assoc. reflexivity.
Qed.

(** When authentication is not ready or the interval has not elapsed. *)
Lemma loop_idles (e : Env) (w : World) :
  app_ready e && interval_elapsed (millis e) (lastSendTime (globals w)) = false ->
  globals (loop e w) = globals w /\ uploads (emitted w (loop e w)) = [].
Proof.
  intros Hidle. unfold loop, app_loop.
  destruct (callbacks_frame (app_loop_results e) w)
    as (Hpc & Hg & Hgps & Hrx & cb & Hout & Hup).
  simpl in Hpc, Hg, Hgps, Hrx, Hout.
  set (w1 := fold_left _ _ w) in *.
  assert (Hg1 : globals (read_gps w1) = globals w) by exact Hg.
  assert (Hout1 : out (read_gps w1) = out w ++ cb) by exact Hout.
  destruct (app_ready e); simpl in Hidle; cbv zeta.
  - rewrite Hg1, shouldTick_fst, shouldTick_snd, Hidle. cbv iota.
    replace (set_lastSendTime (lastSendTime (globals w)) (read_gps w1))
      with (read_gps w1)
      by (rewrite <- Hg1; symmetry; apply set_lastSendTime_same).
    split; [exact Hg1|].
    rewrite (emitted_app _ _ _ Hout1). exact Hup.
  - split; [exact Hg1|].
    rewrite (emitted_app _ _ _ Hout1). exact Hup.
Qed.

(** ** One step of the running machine *)

Lemma step_InLoop (e : Env) (w : World) :
  pc w = InLoop -> step e w = loop e (receive e w).
Proof. intros H. unfold step. rewrite H. reflexivity. Qed.

Lemma emitted_receive (e : Env) (w w' : World) :
  emitted (receive e w) w' = emitted w w'.
Proof. reflexivity. Qed.

(** A step that runs the ten-second block. *)
Lemma step_fires (e : Env) (w : World) :
  pc w = InLoop ->
  app_ready e = true ->
  fst (shouldTick (millis e) (lastSendTime (globals w))) = true ->
  let w' := step e w in
  let p := update_paths (app_getUid e) in
  gps w' = fold_left encode (gpsSerial w ++ gpsSerial_arrived e) (gps w)
  /\ gpsSerial w' = []
  /\ globals w'
     = {| lastSendTime := millis e;
          paths := p;
          bme_vars := read_bme e;
          gps_vars := if location_isValid (gps w')
                      then snapshot_gps (gps w') else gps_vars (globals w) |}
  /\ uploads (emitted w w')
     = uploads (send_bme p (read_bme e))
       ++ (if location_isValid (gps w')
           then uploads (send_gps p (snapshot_gps (gps w')))
           else []).
Proof.
  intros Hpc Hready Hfire w' p. subst w'.
  rewrite (step_InLoop e w Hpc).
  rewrite shouldTick_fst in Hfire.
  destruct (loop_port e (receive e w)) as (_ & Hgps & Hrx).
  destruct (loop_fires e (receive e w) Hready Hfire) as (Hg & Hup).
  cbn [receive gps gpsSerial globals] in Hgps, Hg, Hup.
  rewrite emitted_receive in Hup.
  rewrite Hgps, Hrx. repeat split; assumption.
Qed.

(** ** Setup *)

Lemma run_spin (es : list Env) (w : World) :
  pc w = InitBME_spin -> run es w = w.
Proof.
  induction es as [|e es IH]; intros Hpc; simpl; [reflexivity|].
  unfold step. rewrite Hpc. apply IH. exact Hpc.
Qed.

Lemma run_app (es1 es2 : list Env) (w : World) :
  run (es1 ++ es2) w = run es2 (run es1 w).
Proof.
  revert w. induction es1 as [|e es1 IH]; intros w; simpl; [reflexivity|].
  apply IH.
Qed.

(** While Wi-Fi is not connected [setup] stays in its loop, touching no
    global variable and writing nothing to the database. *)
Lemma run_WiFi_wait (waits : list Env) (w : World) :
  pc w = WiFi_wait ->
  Forall (fun e => WiFi_connected e = false) waits ->
  pc (run waits w) = WiFi_wait
  /\ globals (run waits w) = globals w
  /\ uploads (out (run waits w)) = uploads (out w).
Proof.
  revert w. induction waits as [|e waits IH]; intros w Hpc Hall; simpl.
  - repeat split. exact Hpc.
  - inversion Hall as [|e' waits' He Hrest]; subst.
    assert (Hstep : step e w = emit [Serial_print "."; delay 300] (receive e w)).
    { unfold step, setup_wifi. rewrite Hpc, He. reflexivity. }
    destruct (IH (step e w)) as (Hpc' & Hg' & Hup'); [|exact Hrest|].
    + rewrite Hstep. exact Hpc.
    + rewrite Hpc', Hg', Hup', Hstep. cbn [emit receive globals out].
      rewrite uploads_app, app_nil_r. repeat split.
Qed.

(** With a working sensor, [setup] waits for Wi-Fi as long as it takes and
    then hands over to [loop], with the global variables as initialised and
    nothing written to the database. *)
Lemma setup_completes (g : TinyGPSPlus) (e1 e2 : Env) (waits : list Env) :
  bme_begin e1 = true ->
  Forall (fun e => WiFi_connected e = false) waits ->
  WiFi_connected e2 = true ->
  let w := run (e1 :: waits ++ [e2]) (boot g) in
  pc w = InLoop /\ globals w = initial_Globals /\ uploads (out w) = [].
Proof.
  intros Hbme Hwaits Hcon w. subst w. cbn [run]. rewrite run_app.
  assert (H1 : pc (step e1 (boot g)) = WiFi_wait
               /\ globals (step e1 (boot g)) = initial_Globals
               /\ uploads (out (step e1 (boot g))) = []).
  { unfold step, boot, setup_begin, initBME. cbn [pc]. rewrite Hbme.
    repeat split. }
  destruct H1 as (Hpc1 & Hg1 & Hup1).
  destruct (run_WiFi_wait waits _ Hpc1 Hwaits) as (Hpc2 & Hg2 & Hup2).
  set (w2 := run waits (step e1 (boot g))) in *.
  cbn [run]. unfold step. rewrite Hpc2. unfold setup_wifi. rewrite Hcon.
  cbn [negb set_pc emit receive pc globals out].
  split; [reflexivity|]. split; [rewrite Hg2; exact Hg1|].
  rewrite uploads_app, Hup2, Hup1. reflexivity.
Qed.

(** C1: on a step of the running program in which authentication is
    ready and the send timer fires, the database receives exactly three
    writes (to the temperature, humidity and pressure paths) when the
    parser reports no valid location, and exactly ten (those three and then
    latitude, longitude, altitude, speed, hdop, satellites, timeUTC) when
    it reports a valid one. *)
Theorem tick_upload_count (e : Env) (w : World) :
  pc w = InLoop ->
  app_ready e = true ->
  fst (shouldTick (millis e) (lastSendTime (globals w))) = true ->
  let w' := step e w in
  let p := paths (globals w') in
  let ups := uploads (emitted w w') in
  (location_isValid (gps w') = false ->
   List.length ups = 3%nat
   /\ map fst ups = [tempPath p; humPath p; presPath p])
  /\ (location_isValid (gps w') = true ->
      List.length ups = 10%nat
      /\ map fst ups = [tempPath p; humPath p; presPath p; latPath p;
                        lngPath p; altPath p; speedPath p; hdopPath p;
                        satellitesPath p; timeUTCPath p]).
Proof.
  intros Hpc Hready Hfire w' p ups.
  destruct (step_fires e w Hpc Hready Hfire) as (_ & _ & Hg & Hup).
  fold w' in Hg, Hup. subst p ups. rewrite Hup, Hg.
  split; intros Hvalid; rewrite Hvalid; split; reflexivity.
Qed.

(** C3: on a tick the uid variable holds the session's uid, every path
    variable is "UsersData/" + uid + "/" + field name for its own field
    name, every database write of the tick goes to one of these ten paths,
    and the temperature reading is written to
    "UsersData/" + uid + "/temperature". *)
Theorem upload_paths (e : Env) (w : World) :
  pc w = InLoop ->
  app_ready e = true ->
  fst (shouldTick (millis e) (lastSendTime (globals w))) = true ->
  let w' := step e w in
  let p := paths (globals w') in
  let u := uid p in
  let at_field f := ("UsersData/" ++ u ++ "/" ++ f)%string in
  u = ArduinoString.c_str (app_getUid e)
  /\ [tempPath p; humPath p; presPath p; latPath p; lngPath p; altPath p;
      speedPath p; hdopPath p; satellitesPath p; timeUTCPath p]
     = map at_field
         ["temperature"; "humidity"; "pressure"; "latitude"; "longitude";
          "altitude"; "speed"; "hdop"; "satellites"; "timeUTC"]%string
  /\ (forall path value,
        In (path, value) (uploads (emitted w w')) ->
        exists f,
          In f ["temperature"; "humidity"; "pressure"; "latitude";
                "longitude"; "altitude"; "speed"; "hdop"; "satellites";
                "timeUTC"]%string
          /\ path = at_field f)
  /\ In (at_field "temperature"%string, SFloat (bme_readTemperature e))
       (uploads (emitted w w')).
Proof.
  intros Hpc Hready Hfire w' p u at_field.
  destruct (step_fires e w Hpc Hready Hfire) as (_ & _ & Hg & Hup).
  fold w' in Hg, Hup. subst at_field u p. rewrite Hup, Hg.
  cbn [paths uid update_paths].
  split; [reflexivity|]. split; [reflexivity|]. split.
  - intros path value Hin.
    assert (Hpath : In path (map fst
              (uploads (send_bme (update_paths (app_getUid e)) (read_bme e))
               ++ uploads (send_gps (update_paths (app_getUid e))
                             (snapshot_gps (gps w')))))).
    { apply (in_map fst) in Hin. rewrite map_app in *.
      apply in_app_or in Hin. apply in_or_app.
      destruct Hin as [Hin|Hin]; [left; exact Hin|right].
      destruct (location_isValid (gps w')); [exact Hin|destruct Hin]. }
    cbn in Hpath.
    repeat (destruct Hpath as [Hpath|Hpath];
            [eexists; split; [|symmetry; exact Hpath]; cbn; tauto|]).
    destruct Hpath.
  - apply in_or_app. left. cbn. left. reflexivity.
Qed.

(** A step of the running machine that does not run the block. *)
Lemma step_idles (e : Env) (w : World) :
  pc w = InLoop ->
  app_ready e && interval_elapsed (millis e) (lastSendTime (globals w)) = false ->
  let w' := step e w in
  pc w' = InLoop /\ globals w' = globals w /\ uploads (emitted w w') = [].
Proof.
  intros Hpc Hidle w'. subst w'. rewrite (step_InLoop e w Hpc).
  destruct (loop_port e (receive e w)) as (Hpc' & _).
  destruct (loop_idles e (receive e w) Hidle) as (Hg & Hup).
  rewrite emitted_receive in Hup.
  repeat split; [rewrite Hpc'; exact Hpc | exact Hg | exact Hup].
Qed.

(** C8: every call of [loop], whatever authentication and the send timer
    say, feeds the parser every byte waiting on the GPS port, in order, and
    leaves the port empty; when the ten-second block runs it reads the parser
    that has received those bytes. *)
Theorem gps_port_drained (e : Env) (w : World) :
  pc w = InLoop ->
  let w' := step e w in
  gps w' = fold_left encode (gpsSerial w ++ gpsSerial_arrived e) (gps w)
  /\ gpsSerial w' = []
  /\ (app_ready e = true ->
      fst (shouldTick (millis e) (lastSendTime (globals w))) = true ->
      gps_vars (globals w')
      = if location_isValid (gps w')
        then snapshot_gps (gps w') else gps_vars (globals w)).
Proof.
  intros Hpc w'. subst w'.
  split; [|split].
  - rewrite (step_InLoop e w Hpc).
    destruct (loop_port e (receive e w)) as (_ & Hgps & _). exact Hgps.
  - rewrite (step_InLoop e w Hpc).
    destruct (loop_port e (receive e w)) as (_ & _ & Hrx). exact Hrx.
  - intros Hready Hfire.
    destruct (step_fires e w Hpc Hready Hfire) as (_ & _ & Hg & _).
    rewrite Hg at 1. reflexivity.
Qed.

(** C9: when [bme.begin] fails the program prints the wiring message and
    spins in [initBME] for ever: after any number of further steps it is
    still there, the trace holds nothing but the serial start and that
    message (no [WiFi.begin], no database write), and no global variable has
    changed. *)
Theorem sensor_init_failure_halts (g : TinyGPSPlus) (e : Env) (es : list Env) :
  bme_begin e = false ->
  let w := run (e :: es) (boot g) in
  pc w = InitBME_spin
  /\ out w = [Serial_begin 115200;
              Serial_println
                "Could not find a valid BME280 sensor, check wiring!"]
  /\ uploads (out w) = []
  /\ existsb is_WiFi_begin (out w) = false
  /\ globals w = initial_Globals.
Proof.
  intros Hbme w. subst w. cbn [run].
  assert (Hstep : step e (boot g)
                  = {| pc := InitBME_spin; globals := initial_Globals;
                       gps := g; gpsSerial := [];
                       out := [Serial_begin 115200;
                               Serial_println
                                 "Could not find a valid BME280 sensor, check wiring!"] |}).
  { unfold step, boot, setup_begin, initBME. cbn [pc]. rewrite Hbme. reflexivity. }
  rewrite Hstep, run_spin by reflexivity.
  repeat split.
Qed.

(** C10: the values written to the seven GPS paths at a tick are read,
    at that tick, from the parser as it is after the port has been drained,
    and they are written only when that parser reports a valid location;
    the GPS variables left by earlier ticks do not enter the writes. *)
Theorem gps_uploads_fresh (e : Env) (w : World) :
  pc w = InLoop ->
  app_ready e = true ->
  fst (shouldTick (millis e) (lastSendTime (globals w))) = true ->
  let w' := step e w in
  let p := paths (globals w') in
  let fix_ := fold_left encode (gpsSerial w ++ gpsSerial_arrived e) (gps w) in
  gps w' = fix_
  /\ uploads (emitted w w')
     = [ (tempPath p, SFloat (bme_readTemperature e));
         (humPath p, SFloat (bme_readHumidity e));
         (presPath p, SFloat (float32_div (bme_readPressure e) f100)) ]
       ++ (if location_isValid fix_
           then [ (latPath p, SDouble (location_lat fix_));
                  (lngPath p, SDouble (location_lng fix_));
                  (altPath p, SDouble (altitude_meters fix_));
                  (speedPath p, SDouble (speed_kmph fix_));
                  (hdopPath p,
                   SDouble (double_div (double_of_int (hdop_value fix_)) d100));
                  (satellitesPath p,
                   SInt (int_of_uint32 (satellites_value fix_)));
                  (timeUTCPath p, SString (format_timeUTC fix_)) ]
           else []).
Proof.
  intros Hpc Hready Hfire w' p fix_.
  destruct (step_fires e w Hpc Hready Hfire) as (Hgps & _ & Hg & Hup).
  fold w' in Hgps, Hg, Hup. fold fix_ in Hgps.
  split; [exact Hgps|].
  subst p. rewrite Hup, Hg, Hgps. cbn [paths].
  destruct (location_isValid fix_); reflexivity.
Qed.

(** C2 (amended): the gate answers true exactly when the unsigned
    difference [now - lastSendTime] is at least 10000, and then
    [lastSendTime] becomes [now]; when it answers false [lastSendTime] is
    left alone, and a call of [loop] changes no global variable and writes
    nothing to the database.  Unsigned subtraction yields the elapsed time
    across a wrap of the counter.  After a check that answered true at
    [now1], a check at [now2] answers false when [now2 - now1 < 10000] and
    true when [now2 - now1 >= 10000]. *)
Theorem shouldTick_spec (now1 now2 last : Z) :
  let r1 := shouldTick now1 last in
  (fst r1 = true <-> sendInterval <= ulong_sub now1 last)
  /\ (fst r1 = true -> snd r1 = now1)
  /\ (fst r1 = false -> snd r1 = last)
  /\ (forall d, 0 <= d < ULONG_MODULUS -> ulong_sub (ulong (last + d)) last = d)
  /\ (fst r1 = true ->
      ulong_sub now2 now1 < sendInterval ->
      fst (shouldTick now2 (snd r1)) = false)
  /\ (fst r1 = true ->
      sendInterval <= ulong_sub now2 now1 ->
      fst (shouldTick now2 (snd r1)) = true)
  /\ (forall (e : Env) (w : World),
        pc w = InLoop -> app_ready e = true ->
        millis e = now1 -> lastSendTime (globals w) = last ->
        (fst r1 = true -> lastSendTime (globals (step e w)) = now1)
        /\ (fst r1 = false ->
            globals (step e w) = globals w
            /\ uploads (emitted w (step e w)) = [])).
Proof.
  intros r1. subst r1.
  rewrite shouldTick_fst, shouldTick_snd.
  split; [apply interval_elapsed_iff|].
  split; [intros H; rewrite H; reflexivity|].
  split; [intros H; rewrite H; reflexivity|].
  split; [intros d Hd; apply ulong_sub_elapsed; exact Hd|].
  split; [|split].
  - intros H Hlt. rewrite H, shouldTick_fst.
    unfold interval_elapsed. apply Z.leb_gt. exact Hlt.
  - intros H Hge. rewrite H, shouldTick_fst.
    apply interval_elapsed_iff. exact Hge.
  - intros e w Hpc Hready Hnow Hlast. split.
    + intros Hfire.
      assert (Hf : fst (shouldTick (millis e) (lastSendTime (globals w))) = true)
        by (rewrite shouldTick_fst, Hnow, Hlast; exact Hfire).
      destruct (step_fires e w Hpc Hready Hf) as (_ & _ & Hg & _).
      rewrite Hg. cbn [lastSendTime]. exact Hnow.
    + intros Hidle.
      assert (Hi : app_ready e
                   && interval_elapsed (millis e) (lastSendTime (globals w))
                   = false)
        by (rewrite Hready, Hnow, Hlast; exact Hidle).
      destruct (step_idles e w Hpc Hi) as (_ & Hg & Hup).
      split; assumption.
Qed.

(** C4 (amended): [lastSendTime] starts at 0, so from the initial state a
    check at t=0 does not fire, a following check at t=9999 does not fire,
    and a following check at t=10000 fires: the first two calls of [loop]
    write nothing to the database and the third writes. *)
Theorem startup_tick_scenario (w0 : World) (e0 e1 e2 : Env) :
  pc w0 = InLoop ->
  globals w0 = initial_Globals ->
  app_ready e0 = true -> app_ready e1 = true -> app_ready e2 = true ->
  millis e0 = 0 -> millis e1 = 9999 -> millis e2 = 10000 ->
  let w1 := step e0 w0 in
  let w2 := step e1 w1 in
  let w3 := step e2 w2 in
  fst (shouldTick (millis e0) (lastSendTime (globals w0))) = false
  /\ uploads (emitted w0 w1) = []
  /\ fst (shouldTick (millis e1) (lastSendTime (globals w1))) = false
  /\ uploads (emitted w1 w2) = []
  /\ fst (shouldTick (millis e2) (lastSendTime (globals w2))) = true
  /\ uploads (emitted w2 w3) <> []
  /\ lastSendTime (globals w3) = 10000.
Proof.
  intros Hpc Hg0 Hr0 Hr1 Hr2 Hm0 Hm1 Hm2 w1 w2 w3.
  assert (Hi0 : app_ready e0
                && interval_elapsed (millis e0) (lastSendTime (globals w0))
                = false) by (rewrite Hr0, Hm0, Hg0; reflexivity).
  destruct (step_idles e0 w0 Hpc Hi0) as (Hpc1 & Hg1 & Hup1).
  fold w1 in Hpc1, Hg1, Hup1.
  assert (Hi1 : app_ready e1
                && interval_elapsed (millis e1) (lastSendTime (globals w1))
                = false) by (rewrite Hr1, Hm1, Hg1, Hg0; reflexivity).
  destruct (step_idles e1 w1 Hpc1 Hi1) as (Hpc2 & Hg2 & Hup2).
  fold w2 in Hpc2, Hg2, Hup2.
  assert (Hf2 : fst (shouldTick (millis e2) (lastSendTime (globals w2))) = true)
    by (rewrite Hm2, Hg2, Hg1, Hg0; reflexivity).
  destruct (step_fires e2 w2 Hpc2 Hr2 Hf2) as (_ & _ & Hg3 & Hup3).
  fold w3 in Hg3, Hup3.
  repeat split.
  - rewrite Hm0, Hg0. reflexivity.
  - exact Hup1.
  - rewrite Hm1, Hg1, Hg0. reflexivity.
  - exact Hup2.
  - exact Hf2.
  - rewrite Hup3. cbn. discriminate.
  - rewrite Hg3. cbn [lastSendTime]. exact Hm2.
Qed.

(** C5 (amended): a result answers five independent yes/no queries.  When
    [isResult] is false the callback prints nothing; otherwise it prints
    one line for each kind the result reports, in the order Event, Debug,
    Error, Payload, so the number of lines is the number of kinds reported
    (zero to four), and it is exactly one when exactly one kind is
    reported. *)
Theorem processData_prints_each_kind (r : AsyncResult.t) (w : World) :
  let printed := emitted w (processData r w) in
  (AsyncResult.isResult r = false -> printed = [])
  /\ (AsyncResult.isResult r = true ->
      printed
      = (if AsyncResult.isEvent r
         then [Firebase_printf (printf_event r)] else [])
        ++ (if AsyncResult.isDebug r
            then [Firebase_printf (printf_debug r)] else [])
        ++ (if AsyncResult.isError r
            then [Firebase_printf (printf_error r)] else [])
        ++ (if AsyncResult.available r
            then [Firebase_printf (printf_payload r)] else []))
  /\ List.length printed
     = (if AsyncResult.isResult r then kinds_reported r else 0%nat)
  /\ (AsyncResult.isResult r = true -> kinds_reported r = 1%nat ->
      List.length printed = 1%nat).
Proof.
  intros printed. subst printed.
  rewrite (emitted_app w (processData r w) _ (processData_out r w)).
  split; [|split; [|split]].
  - intros H. unfold processData_prints. rewrite H. reflexivity.
  - intros H. unfold processData_prints. rewrite H. reflexivity.
  - apply processData_prints_length.
  - intros H H1. rewrite processData_prints_length, H. exact H1.
Qed.

(** The path variables after a tick are built from the uid the session
    reports at that tick, whatever they held before; two ticks at which the
    session reports the same uid leave the same paths. *)
Lemma paths_assigned_from_uid (e : Env) (w : World) :
  pc w = InLoop ->
  app_ready e = true ->
  fst (shouldTick (millis e) (lastSendTime (globals w))) = true ->
  paths (globals (step e w)) = update_paths (app_getUid e)
  /\ (forall (e0 : Env) (w0 : World),
        pc w0 = InLoop ->
        app_ready e0 = true ->
        fst (shouldTick (millis e0) (lastSendTime (globals w0))) = true ->
        ArduinoString.c_str (app_getUid e0) = ArduinoString.c_str (app_getUid e) ->
        paths (globals (step e0 w0)) = paths (globals (step e w))).
Proof.
  intros Hpc Hready Hfire.
  destruct (step_fires e w Hpc Hready Hfire) as (_ & _ & Hg & _).
  split; [rewrite Hg; reflexivity|].
  intros e0 w0 Hpc0 Hready0 Hfire0 Huid.
  destruct (step_fires e0 w0 Hpc0 Hready0 Hfire0) as (_ & _ & Hg0 & _).
  rewrite Hg, Hg0. cbn [paths]. unfold update_paths. rewrite Huid. reflexivity.
Qed.

(** ** The trace only grows, and nothing reads it *)

Lemma emitted_trans (w0 w1 w2 : World) (a b : list event) :
  out w1 = out w0 ++ a -> out w2 = out w1 ++ b ->
  emitted w0 w2 = emitted w0 w1 ++ emitted w1 w2.
Proof.
  intros Ha Hb.
  rewrite (emitted_app w0 w1 a Ha), (emitted_app w1 w2 b Hb).
  apply emitted_app. rewrite Hb, Ha, app_assoc. reflexivity.
Qed.

Lemma loop_prefix (e : Env) (w : World) :
  exists evs, out (loop e w) = out w ++ evs.
Proof.
  unfold loop, app_loop.
  destruct (callbacks_frame (app_loop_results e) w)
    as (_ & _ & _ & _ & cb & Hout & _).
  simpl in Hout. set (w1 := fold_left _ _ w) in *.
  assert (Hout1 : out (read_gps w1) = out w ++ cb) by exact Hout.
  destruct (app_ready e); [|exists cb; exact Hout1].
  cbv zeta. destruct (fst (shouldTick _ _)); [|exists cb; exact Hout1].
  match goal with
  | |- context [tick e ?x] => destruct (tick_uploads e x) as (evs & Tout & _)
  end.
  exists (cb ++ evs). rewrite Tout.
  cbn [set_lastSendTime set_globals out]. rewrite Hout1, app_assoc.
  reflexivity.
Qed.

Lemma step_prefix (e : Env) (w : World) :
  exists evs, out (step e w) = out w ++ evs.
Proof.
  unfold step. destruct (pc w).
  - unfold setup_begin, initBME, initGPS.
    destruct (bme_begin e); cbn; eexists; rewrite <- !app_assoc; reflexivity.
  - exists []. rewrite app_nil_r. reflexivity.
  - unfold setup_wifi.
    destruct (WiFi_connected e); cbn; eexists; reflexivity.
  - destruct (loop_prefix e (receive e w)) as (evs & H). exists evs. exact H.
Qed.

Lemma run_prefix (es : list Env) (w : World) :
  exists evs, out (run es w) = out w ++ evs.
Proof.
  revert w. induction es as [|e es IH]; intros w; simpl.
  - exists []. rewrite app_nil_r. reflexivity.
  - destruct (IH (step e w)) as (b & Hb).
    destruct (step_prefix e w) as (a & Ha).
    exists (a ++ b). rewrite Hb, Ha, app_assoc. reflexivity.
Qed.

Lemma emitted_build (w : World) (p : Phase) (g : Globals) (f : TinyGPSPlus)
  (rx : list byte) (evs : list event) :
  emitted w {| pc := p; globals := g; gps := f; gpsSerial := rx;
               out := out w ++ evs |} = evs.
Proof. apply emitted_app. reflexivity. Qed.

Lemma same_state_refl (w : World) : same_state w w.
Proof. repeat split. Qed.

(** Two machines in the same state take the same step and write the same
    things to the database. *)
Lemma step_same_state (e : Env) (w1 w2 : World) :
  same_state w1 w2 ->
  same_state (step e w1) (step e w2)
  /\ uploads (emitted w1 (step e w1)) = uploads (emitted w2 (step e w2)).
Proof.
  intros (Hpc & Hg & Hgps & Hrx).
  destruct (pc w1) eqn:Hpc1; symmetry in Hpc.
  - unfold step. rewrite Hpc1, Hpc.
    unfold setup_begin, initBME, initGPS, same_state.
    destruct (bme_begin e); unfold set_pc, emit;
      cbn [negb out pc globals gps gpsSerial];
      rewrite <- !app_assoc, !emitted_build;
      (split; [repeat split; assumption | reflexivity]).
  - unfold step. rewrite Hpc1, Hpc, !emitted_refl.
    split; [|reflexivity]. repeat split; congruence.
  - unfold step. rewrite Hpc1, Hpc.
    unfold setup_wifi, same_state.
    destruct (WiFi_connected e); unfold set_pc, emit, receive;
      cbn [negb out pc globals gps gpsSerial];
      rewrite !emitted_build;
      (split; [repeat split; congruence | reflexivity]).
  - rewrite (step_InLoop e w1 Hpc1), (step_InLoop e w2 Hpc).
    destruct (loop_port e (receive e w1)) as (P1 & G1 & R1).
    destruct (loop_port e (receive e w2)) as (P2 & G2 & R2).
    cbn [receive pc gps gpsSerial] in P1, G1, P2, G2.
    assert (Hfix : gps (loop e (receive e w1)) = gps (loop e (receive e w2)))
      by (rewrite G1, G2, Hgps, Hrx; reflexivity).
    destruct (app_ready e
              && interval_elapsed (millis e) (lastSendTime (globals w1)))
      eqn:Hgate.
    + apply andb_prop in Hgate. destruct Hgate as (Hready & Hel).
      destruct (loop_fires e (receive e w1) Hready Hel) as (L1 & U1).
      rewrite Hg in Hel.
      destruct (loop_fires e (receive e w2) Hready Hel) as (L2 & U2).
      cbn [receive globals gps gpsSerial] in L1, U1, L2, U2.
      rewrite emitted_receive in U1, U2.
      rewrite <- Hgps, <- Hrx, <- Hg in L2. rewrite <- Hgps, <- Hrx in U2.
      split; [|rewrite U1, U2; reflexivity].
      repeat split; [congruence | congruence | exact Hfix | congruence].
    + destruct (loop_idles e (receive e w1) Hgate) as (L1 & U1).
      rewrite Hg in Hgate.
      destruct (loop_idles e (receive e w2) Hgate) as (L2 & U2).
      cbn [receive globals] in L1, L2.
      rewrite emitted_receive in U1, U2.
      split; [|rewrite U1, U2; reflexivity].
      repeat split; [congruence | congruence | exact Hfix | congruence].
Qed.

Lemma run_same_state (es : list Env) (w1 w2 : World) :
  same_state w1 w2 ->
  same_state (run es w1) (run es w2)
  /\ uploads (emitted w1 (run es w1)) = uploads (emitted w2 (run es w2)).
Proof.
  revert w1 w2. induction es as [|e es IH]; intros w1 w2 Hsame; simpl.
  - rewrite !emitted_refl. split; [exact Hsame | reflexivity].
  - destruct (step_same_state e w1 w2 Hsame) as (Hstep & Hup).
    destruct (IH _ _ Hstep) as (Hrun & Hups).
    split; [exact Hrun|].
    destruct (step_prefix e w1) as (a1 & Ha1).
    destruct (step_prefix e w2) as (a2 & Ha2).
    destruct (run_prefix es (step e w1)) as (b1 & Hb1).
    destruct (run_prefix es (step e w2)) as (b2 & Hb2).
    rewrite (emitted_trans w1 _ _ _ _ Ha1 Hb1).
    rewrite (emitted_trans w2 _ _ _ _ Ha2 Hb2).
    rewrite !uploads_app, Hup, Hups. reflexivity.
Qed.

(** C6: for a failed upload the callback prints the error line (task,
    message, code) and does nothing else: everything it emits is a print,
    it makes no database write, and it leaves the program counter, the
    global variables, the parser and the GPS port as they were; whatever
    steps follow, the machine goes through the same states and makes the
    same database writes as if the failure had not been delivered. *)
Theorem failed_upload_only_logged (r : AsyncResult.t) (w : World) :
  AsyncResult.isResult r = true ->
  AsyncResult.isError r = true ->
  let w' := processData r w in
  In (Firebase_printf (printf_error r)) (emitted w w')
  /\ (forall ev, In ev (emitted w w') -> exists text, ev = Firebase_printf text)
  /\ (AsyncResult.isEvent r = false -> AsyncResult.isDebug r = false ->
      AsyncResult.available r = false ->
      emitted w w' = [Firebase_printf (printf_error r)])
  /\ uploads (emitted w w') = []
  /\ same_state w' w
  /\ (forall es : list Env,
        same_state (run es w') (run es w)
        /\ uploads (emitted w' (run es w')) = uploads (emitted w (run es w))).
Proof.
  intros Hres Herr w'. subst w'.
  assert (Hsame : same_state (processData r w) w).
  { destruct (processData_frame r w) as (Hpc & Hg & Hgps & Hrx).
    repeat split; assumption. }
  rewrite (emitted_app w (processData r w) _ (processData_out r w)).
  split; [|split; [|split; [|split; [|split]]]].
  - unfold processData_prints. rewrite Hres, Herr.
    apply in_or_app. right. apply in_or_app. right.
    apply in_or_app. left. left. reflexivity.
  - intros ev Hin. unfold processData_prints in Hin. rewrite Hres in Hin.
    repeat (apply in_app_or in Hin; destruct Hin as [Hin|Hin]);
      match type of Hin with
      | In _ (if ?b then _ else _) => destruct b
      end;
      try (destruct Hin as [Hin|[]]; eexists; symmetry; exact Hin);
      destruct Hin.
  - intros Hev Hdbg Hav. unfold processData_prints.
    rewrite Hres, Herr, Hev, Hdbg, Hav. reflexivity.
  - apply processData_prints_uploads.
  - exact Hsame.
  - intros es. apply run_same_state. exact Hsame.
Qed.

End Properties.

(** * Runs on the bench *)

Lemma tick_upload_count_witness :
  List.length
    (uploads (emitted Bench.ready_world
                (step (Bench.env 10000 "abc123" [x41]) Bench.ready_world)))
  = 10%nat.
Proof.
  destruct (tick_upload_count (gps_api := Bench.receiver)
              (Bench.env 10000 "abc123" [x41]) Bench.ready_world
              eq_refl eq_refl eq_refl) as [_ Hvalid].
  apply Hvalid. reflexivity.
Defined.

Lemma upload_paths_witness :
  In ("UsersData/abc123/temperature"%string, SFloat Bench.t21_5)
    (uploads (emitted Bench.ready_world
                (step (Bench.env 10000 "abc123" []) Bench.ready_world))).
Proof.
  exact (proj2 (proj2 (proj2
    (upload_paths (gps_api := Bench.receiver)
       (Bench.env 10000 "abc123" []) Bench.ready_world
       eq_refl eq_refl eq_refl)))).
Defined.

Lemma gps_port_drained_witness :
  gps (step (Bench.env 3000 "abc123" [x24; x41]) Bench.ready_world) = true
  /\ gpsSerial (step (Bench.env 3000 "abc123" [x24; x41]) Bench.ready_world)
     = [].
Proof.
  destruct (gps_port_drained (gps_api := Bench.receiver)
              (Bench.env 3000 "abc123" [x24; x41]) Bench.ready_world eq_refl)
    as (Hgps & Hrx & _).
  split; [exact Hgps | exact Hrx].
Defined.

Lemma sensor_init_failure_halts_witness :
  pc (run [Bench.without_sensor; Bench.env 10000 "abc123" [];
           Bench.env 20000 "abc123" []]
        (boot (gps_api := Bench.receiver) false))
  = InitBME_spin.
Proof.
  exact (proj1 (sensor_init_failure_halts (gps_api := Bench.receiver) false
                  Bench.without_sensor
                  [Bench.env 10000 "abc123" []; Bench.env 20000 "abc123" []]
                  eq_refl)).
Defined.

Lemma gps_uploads_fresh_witness :
  uploads (emitted Bench.stale_world
             (step (Bench.env 10000 "abc123" []) Bench.stale_world))
  = [ ("UsersData/abc123/temperature"%string, SFloat Bench.t21_5);
      ("UsersData/abc123/humidity"%string, SFloat Bench.h40);
      ("UsersData/abc123/pressure"%string,
       SFloat (S754_finite false 16601088 (-14))) ].
Proof.
  exact (proj2 (gps_uploads_fresh (gps_api := Bench.receiver)
                  (Bench.env 10000 "abc123" []) Bench.stale_world
                  eq_refl eq_refl eq_refl)).
Defined.

(** C2, as stated, fails: from the initial state a check at 5000 does not
    fire, and the check at 10000 that follows it within the interval
    does. *)
Lemma second_check_within_interval_fires :
  let r1 := shouldTick 5000 (lastSendTime initial_Globals) in
  let r2 := shouldTick 10000 (snd r1) in
  ulong_sub 10000 5000 < sendInterval /\ fst r1 = false /\ fst r2 = true.
Proof. repeat split. Qed.

(** The counter wraps between the two checks. *)
Lemma shouldTick_spec_witness :
  fst (shouldTick 4294962296 0) = true
  /\ fst (shouldTick 5000 (snd (shouldTick 4294962296 0))) = true.
Proof.
  destruct (shouldTick_spec (gps_api := Bench.receiver) 4294962296 5000 0)
    as (_ & _ & _ & _ & _ & Hfire & _).
  split; [reflexivity|].
  apply Hfire; [reflexivity|].
  unfold sendInterval. vm_compute. discriminate.
Defined.

(** C4, as stated, fails: the check at t=0 from the initial state does not
    fire, and that call of [loop] writes nothing. *)
Lemma check_at_zero_does_not_fire :
  fst (shouldTick 0 (lastSendTime initial_Globals)) = false
  /\ uploads (out (step (Bench.env 0 "abc123" []) Bench.ready_world)) = [].
Proof. split; reflexivity. Qed.

Lemma startup_tick_scenario_witness :
  uploads (emitted Bench.ready_world
             (step (Bench.env 0 "abc123" []) Bench.ready_world)) = []
  /\ lastSendTime
       (globals
          (step (Bench.env 10000 "abc123" [])
             (step (Bench.env 9999 "abc123" [])
                (step (Bench.env 0 "abc123" []) Bench.ready_world))))
     = 10000.
Proof.
  destruct (startup_tick_scenario (gps_api := Bench.receiver)
              Bench.ready_world (Bench.env 0 "abc123" [])
              (Bench.env 9999 "abc123" []) (Bench.env 10000 "abc123" [])
              eq_refl eq_refl eq_refl eq_refl eq_refl eq_refl eq_refl eq_refl)
    as (_ & H0 & _ & _ & _ & _ & H3).
  split; [exact H0 | exact H3].
Defined.

(** C5, as stated, fails: a result that reports an event and a debug
    message is two kinds at once, and the callback prints two lines for
    it. *)
Lemma two_kinds_two_lines :
  kinds_reported Bench.event_and_debug = 2%nat
  /\ emitted Bench.ready_world
       (processData Bench.event_and_debug Bench.ready_world)
     = [Firebase_printf
          ("Event task: RTDB_Send_Humidity, msg: connecting, code: 10" ++ LF);
        Firebase_printf
          ("Debug task: RTDB_Send_Humidity, msg: Connecting to server..."
           ++ LF)].
Proof. split; reflexivity. Qed.

Lemma processData_prints_each_kind_witness :
  List.length
    (emitted Bench.ready_world
       (processData Bench.timeout_error Bench.ready_world)) = 1%nat.
Proof.
  destruct (processData_prints_each_kind (gps_api := Bench.receiver)
              Bench.timeout_error Bench.ready_world) as (_ & _ & _ & H).
  apply H; reflexivity.
Defined.

(** The scenario of a write that timed out. *)
Lemma failed_upload_only_logged_witness :
  emitted Bench.ready_world (processData Bench.timeout_error Bench.ready_world)
  = [Firebase_printf
       ("Error task: RTDB_Send_Temperature, msg: timeout, code: -1" ++ LF)].
Proof.
  destruct (failed_upload_only_logged (gps_api := Bench.receiver)
              Bench.timeout_error Bench.ready_world eq_refl eq_refl)
    as (_ & _ & Honly & _).
  apply Honly; reflexivity.
Defined.

(** Sample values of the conversions of a tick. *)
Example timeUTC_format :
  format_timeUTC (gps_api := Bench.receiver) true = "2024/3/9,14:5:0"%string.
Proof. reflexivity. Qed.

Example pressure_in_hPa :
  pressure (read_bme (Bench.env 10000 "abc123" []))
  = S754_finite false 16601088 (-14).
Proof. reflexivity. Qed.

Example hdop_scaled :
  hdop (snapshot_gps (gps_api := Bench.receiver) true)
  = S754_finite false 6755399441055744 (-52).
Proof. reflexivity. Qed.

Example c_str_stops_at_NUL :
  ArduinoString.c_str (String "a" (String zero (String "b" EmptyString)))
  = "a"%string.
Proof. reflexivity. Qed.

(** * Further properties of the sketch *)

Section Further.

Context {gps_api : TinyGPSPlus_api}.

(** ** [setup] *)

Lemma run_waits (waits : list Env) (w : World) :
  pc w = WiFi_wait ->
  Forall (fun e => WiFi_connected e = false) waits ->
  pc (run waits w) = WiFi_wait
  /\ globals (run waits w) = globals w
  /\ gps (run waits w) = gps w
  /\ out (run waits w)
     = out w ++ List.concat (repeat [Serial_print "."; delay 300]
                          (List.length waits)).
Proof.
  revert w. induction waits as [|e waits IH]; intros w Hpc Hall.
  - cbn. rewrite app_nil_r. repeat split. exact Hpc.
  - inversion Hall as [|e' waits' He Hrest]; subst.
    assert (Hstep : step e w = emit [Serial_print "."; delay 300] (receive e w)).
    { unfold step, setup_wifi. rewrite Hpc, He. reflexivity. }
    cbn [run]. destruct (IH (step e w)) as (Hpc' & Hg' & Hgps' & Hout');
      [rewrite Hstep; exact Hpc | exact Hrest |].
    rewrite Hpc', Hg', Hgps', Hout', Hstep.
    cbn [emit receive globals gps out List.length repeat List.concat].
    rewrite <- app_assoc. repeat split.
Qed.

(** [setup] up to the first Wi-Fi test, with a working sensor. *)
Lemma setup_first_step (g : TinyGPSPlus) (e1 : Env) :
  bme_begin e1 = true ->
  step e1 (boot g)
  = {| pc := WiFi_wait; globals := initial_Globals; gps := g;
       gpsSerial := [];
       out := [Serial_begin 115200;
               Serial_println "BME280 Initialized with success";
               gpsSerial_begin 9600 16 17;
               Serial_println "GPS Serial started at 9600 baud rate";
               WiFi_begin WIFI_SSID WIFI_PASSWORD;
               Serial_print "Connecting to Wi-Fi"] |}.
Proof.
  intros Hbme. unfold step, boot, setup_begin, initBME. cbn [pc].
  rewrite Hbme. reflexivity.
Qed.

(** X1: with a working sensor, however many times the Wi-Fi test fails,
    [setup] is still in its Wi-Fi loop: it has printed one dot and waited
    300 ms per failed test after the start-up lines, has not started the
    Firebase client, and has changed no global variable and fed nothing to
    the parser. *)
Theorem WiFi_wait_retries (g : TinyGPSPlus) (e1 : Env) (waits : list Env) :
  bme_begin e1 = true ->
  Forall (fun e => WiFi_connected e = false) waits ->
  let w := run (e1 :: waits) (boot g) in
  pc w = WiFi_wait
  /\ out w
     = [Serial_begin 115200;
        Serial_println "BME280 Initialized with success";
        gpsSerial_begin 9600 16 17;
        Serial_println "GPS Serial started at 9600 baud rate";
        WiFi_begin WIFI_SSID WIFI_PASSWORD;
        Serial_print "Connecting to Wi-Fi"]
       ++ List.concat (repeat [Serial_print "."; delay 300] (List.length waits))
  /\ globals w = initial_Globals
  /\ gps w = g.
Proof.
  intros Hbme Hwaits w. subst w. cbn [run].
  pose proof (setup_first_step g e1 Hbme) as H1.
  destruct (run_waits waits (step e1 (boot g))) as (Hpc & Hg & Hgps & Hout);
    [rewrite H1; reflexivity | exact Hwaits |].
  rewrite Hpc, Hg, Hgps, Hout, H1. repeat split.
Qed.

(** X2: with a working sensor, once the Wi-Fi test succeeds [setup]
    finishes and control is in [loop].  The whole trace of [setup] is the
    start-up lines, one dot and one 300 ms wait per failed test, and then
    the TLS and Firebase set-up calls, in the order of the source; no global
    variable has changed and the parser has been fed nothing. *)
Theorem setup_trace (g : TinyGPSPlus) (e1 e2 : Env) (waits : list Env) :
  bme_begin e1 = true ->
  Forall (fun e => WiFi_connected e = false) waits ->
  WiFi_connected e2 = true ->
  let w := run (e1 :: waits ++ [e2]) (boot g) in
  pc w = InLoop
  /\ out w
     = [Serial_begin 115200;
        Serial_println "BME280 Initialized with success";
        gpsSerial_begin 9600 16 17;
        Serial_println "GPS Serial started at 9600 baud rate";
        WiFi_begin WIFI_SSID WIFI_PASSWORD;
        Serial_print "Connecting to Wi-Fi"]
       ++ List.concat (repeat [Serial_print "."; delay 300] (List.length waits))
       ++ [Serial_println EmptyString;
           ssl_client_setInsecure;
           ssl_client_setHandshakeTimeout 5;
           initializeApp "🔐 authTask";
           app_getApp_Database;
           Database_url DATABASE_URL]
  /\ globals w = initial_Globals
  /\ gps w = g.
Proof.
  intros Hbme Hwaits Hcon w. subst w.
  cbn [run]. rewrite run_app.
  pose proof (setup_first_step g e1 Hbme) as H1.
  destruct (run_waits waits (step e1 (boot g))) as (Hpc & Hg & Hgps & Hout);
    [rewrite H1; reflexivity | exact Hwaits |].
  set (w1 := run waits (step e1 (boot g))) in *.
  cbn [run]. unfold step. rewrite Hpc. unfold setup_wifi. rewrite Hcon.
  cbn [negb set_pc emit receive pc globals gps out].
  rewrite Hout, Hg, Hgps, H1. cbn [globals gps out].
  rewrite <- app_assoc. repeat split.
Qed.

(** X3: control never goes back: from any state and through any steps,
    the phase reached is one that [phase_reach] allows, so [loop] once
    entered is never left, the spin of [initBME] is never left, and the Wi-Fi
    loop is left only for [loop]. *)
Theorem phase_never_goes_back (es : list Env) (w : World) :
  phase_reach (pc w) (pc (run es w)) = true.
Proof.
  revert w. induction es as [|e es IH]; intros w; cbn [run].
  - destruct (pc w); reflexivity.
  - specialize (IH (step e w)).
    assert (Hstep : phase_reach (pc w) (pc (step e w)) = true
                    /\ (pc w = AtReset \/ pc w = pc (step e w)
                        \/ (pc w = WiFi_wait /\ pc (step e w) = InLoop))).
    { unfold step. destruct (pc w) eqn:Hpc.
      - split; [reflexivity | left; reflexivity].
      - rewrite Hpc. split; [reflexivity | right; left; reflexivity].
      - unfold setup_wifi.
        destruct (WiFi_connected e); cbn [negb set_pc emit receive pc];
          rewrite ?Hpc.
        + split; [reflexivity | right; right; split; reflexivity].
        + split; [reflexivity | right; left; reflexivity].
      - destruct (loop_port e (receive e w)) as (Hpc' & _).
        cbn [receive pc] in Hpc'. rewrite Hpc', Hpc.
        split; [reflexivity | right; left; reflexivity]. }
    destruct Hstep as (_ & [H | [H | (H1 & H2)]]).
    + rewrite H. reflexivity.
    + rewrite H. exact IH.
    + rewrite H1. rewrite H2 in IH.
      destruct (pc (run es (step e w))); try discriminate IH; reflexivity.
Qed.

(** ** Which steps write to the database *)

Lemma step_outside_loop (e : Env) (w : World) :
  pc w <> InLoop ->
  globals (step e w) = globals w
  /\ gps (step e w) = gps w
  /\ uploads (emitted w (step e w)) = [].
Proof.
  intros Hpc. unfold step. destruct (pc w) eqn:Hp.
  - unfold setup_begin, initBME, initGPS.
    destruct (bme_begin e); unfold set_pc, emit;
      cbn [negb out pc globals gps gpsSerial];
      rewrite <- !app_assoc, emitted_build; repeat split.
  - rewrite emitted_refl. repeat split.
  - unfold setup_wifi.
    destruct (WiFi_connected e); unfold set_pc, emit, receive;
      cbn [negb out pc globals gps gpsSerial];
      rewrite emitted_build; repeat split.
  - contradiction Hpc. reflexivity.
Qed.

(** The two ways a step can go. *)
Lemma step_cases (e : Env) (w : World) :
  (runs_block e w = true
   /\ pc w = InLoop /\ app_ready e = true
   /\ interval_elapsed (millis e) (lastSendTime (globals w)) = true
   /\ lastSendTime (globals (step e w)) = millis e
   /\ paths (globals (step e w)) = update_paths (app_getUid e)
   /\ uploads (emitted w (step e w))
      = uploads (send_bme (update_paths (app_getUid e)) (read_bme e))
        ++ (if location_isValid (gps (step e w))
            then uploads (send_gps (update_paths (app_getUid e))
                            (snapshot_gps (gps (step e w))))
            else []))
  \/ (runs_block e w = false
      /\ globals (step e w) = globals w
      /\ uploads (emitted w (step e w)) = []).
Proof.
  unfold runs_block. destruct (pc w) eqn:Hpc;
    try (right; split; [reflexivity|];
         destruct (step_outside_loop e w) as (Hg & _ & Hup);
         [rewrite Hpc; discriminate | split; assumption]).
  destruct (app_ready e
            && interval_elapsed (millis e) (lastSendTime (globals w)))
    eqn:Hgate.
  - left. apply andb_prop in Hgate. destruct Hgate as (Hready & Hel).
    assert (Hfire : fst (shouldTick (millis e) (lastSendTime (globals w)))
                    = true) by (rewrite shouldTick_fst; exact Hel).
    destruct (step_fires e w Hpc Hready Hfire) as (_ & _ & Hg & Hup).
    repeat split; try assumption; rewrite Hg; reflexivity.
  - right. destruct (step_idles e w Hpc Hgate) as (_ & Hg & Hup).
    repeat split; assumption.
Qed.

Lemma step_pc_InLoop (e : Env) (w : World) :
  pc w = InLoop -> pc (step e w) = InLoop.
Proof.
  intros Hpc. rewrite (step_InLoop e w Hpc).
  destruct (loop_port e (receive e w)) as (H & _). rewrite H. exact Hpc.
Qed.

(** X4: a step writes to the database exactly when control is in [loop],
    [app.ready()] is true and the send interval has elapsed; in every
    other step (all of [setup], not ready, interval not elapsed) it writes
    nothing.  The number of writes of a step is 0, 3 or 10. *)
Theorem step_uploads_iff (e : Env) (w : World) :
  (uploads (emitted w (step e w)) <> []
   <-> pc w = InLoop /\ app_ready e = true
       /\ interval_elapsed (millis e) (lastSendTime (globals w)) = true)
  /\ (List.length (uploads (emitted w (step e w))) = 0%nat
      \/ List.length (uploads (emitted w (step e w))) = 3%nat
      \/ List.length (uploads (emitted w (step e w))) = 10%nat).
Proof.
  destruct (step_cases e w)
    as [(Hrun & Hpc & Hready & Hel & _ & _ & Hup) | (Hrun & _ & Hup)].
  - rewrite Hup. split.
    + split; [intros _; repeat split; assumption | intros _; discriminate].
    + right. destruct (location_isValid (gps (step e w)));
        [right | left]; reflexivity.
  - rewrite Hup. split; [|left; reflexivity].
    split; [intros H; contradiction H; reflexivity|].
    intros (Hpc & Hready & Hel). unfold runs_block in Hrun.
    rewrite Hpc, Hready, Hel in Hrun. discriminate Hrun.
Qed.

(** Steps that write nothing leave the global variables alone. *)
Lemma run_quiet (es : list Env) (w : World) :
  pc w = InLoop ->
  uploads (emitted w (run es w)) = [] ->
  pc (run es w) = InLoop /\ globals (run es w) = globals w.
Proof.
  revert w. induction es as [|e es IH]; intros w Hpc Hquiet; cbn [run] in *.
  - split; [exact Hpc | reflexivity].
  - destruct (step_prefix e w) as (a & Ha).
    destruct (run_prefix es (step e w)) as (b & Hb).
    rewrite (emitted_trans w _ _ _ _ Ha Hb), uploads_app in Hquiet.
    apply app_eq_nil in Hquiet. destruct Hquiet as (Hq1 & Hq2).
    destruct (IH (step e w) (step_pc_InLoop e w Hpc) Hq2) as (Hpc' & Hg').
    split; [exact Hpc'|]. rewrite Hg'.
    destruct (step_cases e w)
      as [(_ & _ & _ & _ & _ & _ & Hup) | (_ & Hg & _)]; [|exact Hg].
    rewrite Hup in Hq1. discriminate Hq1.
Qed.

(** X5: two consecutive ticks are at least [sendInterval] apart.  If a
    call of [loop] at clock reading [millis e1] writes to the database, the
    calls after it write nothing, and then a call at [millis e2] writes
    again, the unsigned difference [millis e2 - millis e1] is at least
    10000. *)
Theorem consecutive_ticks_gap (e1 e2 : Env) (mids : list Env) (w : World) :
  pc w = InLoop ->
  let w1 := step e1 w in
  let w2 := run mids w1 in
  uploads (emitted w w1) <> [] ->
  uploads (emitted w1 w2) = [] ->
  uploads (emitted w2 (step e2 w2)) <> [] ->
  sendInterval <= ulong_sub (millis e2) (millis e1).
Proof.
  intros Hpc w1 w2 Hfirst Hquiet Hsecond.
  destruct (step_cases e1 w)
    as [(_ & _ & _ & _ & Hlast & _) | (_ & _ & Hup)];
    [|contradiction Hfirst; exact Hup].
  fold w1 in Hlast.
  destruct (run_quiet mids w1 (step_pc_InLoop e1 w Hpc) Hquiet) as (_ & Hg2).
  fold w2 in Hg2.
  destruct (step_cases e2 w2)
    as [(_ & _ & _ & Hel & _) | (_ & _ & Hup)];
    [|contradiction Hsecond; exact Hup].
  rewrite Hg2, Hlast in Hel. apply interval_elapsed_iff. exact Hel.
Qed.

(** X6: as long as [app.ready()] is false the program writes nothing to
    the database and changes none of its global variables, whatever the
    clock, the GPS port and the callbacks do. *)
Theorem no_upload_before_ready (es : list Env) (w : World) :
  Forall (fun e => app_ready e = false) es ->
  uploads (emitted w (run es w)) = [] /\ globals (run es w) = globals w.
Proof.
  revert w. induction es as [|e es IH]; intros w Hall; cbn [run].
  - rewrite emitted_refl. split; reflexivity.
  - inversion Hall as [|e' es' He Hrest]; subst.
    destruct (IH (step e w) Hrest) as (Hup' & Hg').
    destruct (step_prefix e w) as (a & Ha).
    destruct (run_prefix es (step e w)) as (b & Hb).
    rewrite (emitted_trans w _ _ _ _ Ha Hb), uploads_app, Hup', Hg'.
    destruct (step_cases e w)
      as [(_ & _ & Hready & _) | (_ & Hg & Hup)].
    + rewrite He in Hready. discriminate Hready.
    + rewrite Hup, Hg. split; reflexivity.
Qed.

(** X14: [lastSendTime] only ever holds its earlier value or the clock
    reading of a call of [loop] at which [app.ready()] was true. *)
Theorem lastSendTime_provenance (es : list Env) (w : World) :
  lastSendTime (globals (run es w)) = lastSendTime (globals w)
  \/ exists e, In e es /\ app_ready e = true
               /\ lastSendTime (globals (run es w)) = millis e.
Proof.
  revert w. induction es as [|e es IH]; intros w; cbn [run].
  - left. reflexivity.
  - destruct (IH (step e w)) as [Hsame | (e' & Hin & Hready & Hlast)].
    + rewrite Hsame.
      destruct (step_cases e w)
        as [(_ & _ & Hready & _ & Hlast & _) | (_ & Hg & _)].
      * right. exists e. repeat split; [left; reflexivity | assumption..].
      * left. rewrite Hg. reflexivity.
    + right. exists e'. repeat split; [right; exact Hin | assumption..].
Qed.

(** ** The GPS stream across calls *)

(** X7: over any number of calls of [loop] the parser receives every byte
    that was waiting on or arrived at the GPS port, each once, in order of
    arrival, and after each call the port is empty. *)
Theorem gps_stream_in_order (e : Env) (es : list Env) (w : World) :
  pc w = InLoop ->
  gps (run (e :: es) w)
  = fold_left encode
      (gpsSerial w ++ List.concat (map gpsSerial_arrived (e :: es))) (gps w)
  /\ gpsSerial (run (e :: es) w) = [].
Proof.
  revert e w. induction es as [|e' es IH]; intros e w Hpc.
  - cbn [run map List.concat]. rewrite app_nil_r.
    rewrite (step_InLoop e w Hpc).
    destruct (loop_port e (receive e w)) as (_ & Hgps & Hrx).
    split; [exact Hgps | exact Hrx].
  - change (run (e :: e' :: es) w) with (run (e' :: es) (step e w)).
    destruct (IH e' (step e w) (step_pc_InLoop e w Hpc)) as (Hgps & Hrx).
    split; [|exact Hrx].
    rewrite Hgps, (step_InLoop e w Hpc).
    destruct (loop_port e (receive e w)) as (_ & Hgps1 & Hrx1).
    rewrite Hgps1, Hrx1. cbn [receive gps gpsSerial app].
    rewrite <- fold_left_app.
    change (map gpsSerial_arrived (e :: e' :: es))
      with (gpsSerial_arrived e :: map gpsSerial_arrived (e' :: es)).
    cbn [List.concat]. rewrite app_assoc. reflexivity.
Qed.

(** ** Strings *)

Lemma append_assoc (a b c : string) :
  ((a ++ b) ++ c = a ++ (b ++ c))%string.
Proof. induction a as [|x a IH]; simpl; [reflexivity|]. rewrite IH. reflexivity. Qed.

Lemma c_str_idempotent (s : string) :
  ArduinoString.c_str (ArduinoString.c_str s) = ArduinoString.c_str s.
Proof.
  induction s as [|c s IH]; simpl; [reflexivity|].
  destruct (Ascii.eqb c zero) eqn:Hc; simpl; [reflexivity|].
  rewrite Hc, IH. reflexivity.
Qed.

Lemma c_str_append (a b : string) :
  ArduinoString.c_str a = a ->
  ArduinoString.c_str (a ++ b) = (a ++ ArduinoString.c_str b)%string.
Proof.
  induction a as [|c a IH]; simpl; intros Ha; [reflexivity|].
  destruct (Ascii.eqb c zero); [discriminate Ha|].
  injection Ha as Ha. rewrite (IH Ha). reflexivity.
Qed.

Lemma list_ascii_of_string_append (a b : string) :
  list_ascii_of_string (a ++ b)
  = list_ascii_of_string a ++ list_ascii_of_string b.
Proof. induction a as [|c a IH]; simpl; [reflexivity|]. rewrite IH. reflexivity. Qed.

(** A string is determined by its characters read backwards. *)
Lemma rev_chars_inj (a b : string) :
  rev (list_ascii_of_string a) = rev (list_ascii_of_string b) -> a = b.
Proof.
  intros H. apply (f_equal (@rev ascii)) in H. rewrite !rev_involutive in H.
  apply (f_equal string_of_list_ascii) in H.
  rewrite !string_of_list_ascii_of_string in H. exact H.
Qed.

(** ** The path variables *)

(** X10: every path built on a tick, read back as a C string, is the
    whole path: [uid] is cut at its first NUL before the paths are built,
    so no path contains a NUL, for any uid the session reports. *)
Theorem paths_are_C_strings (app_uid : string) :
  ArduinoString.c_str (uid (update_paths app_uid)) = uid (update_paths app_uid)
  /\ ArduinoString.c_str (databasePath (update_paths app_uid))
     = databasePath (update_paths app_uid)
  /\ Forall (fun path => ArduinoString.c_str path = path)
       (path_list (update_paths app_uid)).
Proof.
  assert (Hu : ArduinoString.c_str (ArduinoString.c_str app_uid)
               = ArduinoString.c_str app_uid) by apply c_str_idempotent.
  unfold path_list, update_paths.
  cbn [uid databasePath tempPath humPath presPath latPath lngPath altPath
       speedPath hdopPath satellitesPath timeUTCPath].
  split; [exact Hu|]. split.
  - cbn. rewrite Hu. reflexivity.
  - repeat constructor; cbn; rewrite (c_str_append _ _ Hu); reflexivity.
Qed.

(** X9: in every state the program reaches from reset the path variables
    are in step with the uid variable (all still empty, or all built from
    the uid variable as it is now), and the uid variable holds no NUL. *)
Theorem paths_stay_consistent (g : TinyGPSPlus) (es : list Env) :
  let p := paths (globals (run es (boot g))) in
  paths_consistent p /\ ArduinoString.c_str (uid p) = uid p.
Proof.
  assert (Hinv : forall (l : list Env) (w : World),
            paths_consistent (paths (globals w))
            /\ ArduinoString.c_str (uid (paths (globals w)))
               = uid (paths (globals w)) ->
            paths_consistent (paths (globals (run l w)))
            /\ ArduinoString.c_str (uid (paths (globals (run l w))))
               = uid (paths (globals (run l w)))).
  { induction l as [|e l IH]; intros w Hw; cbn [run]; [exact Hw|].
    apply IH.
    destruct (step_cases e w)
      as [(_ & _ & _ & _ & _ & Hp & _) | (_ & Hg & _)].
    - rewrite Hp. split.
      + right. unfold update_paths. cbn [uid].
        rewrite c_str_idempotent. reflexivity.
      + apply c_str_idempotent.
    - rewrite Hg. exact Hw. }
  apply Hinv. split; [left; reflexivity | reflexivity].
Qed.

(** X8: a path determines its uid and its field.  If the path of the
    [i]-th field built for one session equals the path of the [j]-th field
    built for another, then [i = j] and both sessions have the same uid
    variable; in particular the ten paths of one tick are pairwise
    distinct, and the same field of two different uids never shares a
    path. *)
Theorem path_determines_uid_and_field (uid1 uid2 : string) (i j : nat) :
  (i < 10)%nat -> (j < 10)%nat ->
  nth i (path_list (update_paths uid1)) EmptyString
  = nth j (path_list (update_paths uid2)) EmptyString ->
  i = j /\ uid (update_paths uid1) = uid (update_paths uid2).
Proof.
  intros Hi Hj. unfold update_paths, path_list. cbn [uid].
  generalize (ArduinoString.c_str uid1) (ArduinoString.c_str uid2).
  intros u1 u2 Heq.
  destruct i as [|[|[|[|[|[|[|[|[|[|i]]]]]]]]]]; try lia;
    destruct j as [|[|[|[|[|[|[|[|[|[|j]]]]]]]]]]; try lia;
    cbn [nth tempPath humPath presPath latPath lngPath altPath speedPath
         hdopPath satellitesPath timeUTCPath] in Heq;
    rewrite !append_assoc in Heq;
    apply (f_equal list_ascii_of_string) in Heq;
    rewrite !list_ascii_of_string_append in Heq;
    apply app_inv_head in Heq;
    apply (f_equal (@rev ascii)) in Heq;
    rewrite !rev_app_distr in Heq;
    cbn [list_ascii_of_string rev app] in Heq;
    try discriminate Heq;
    (split; [reflexivity|]);
    repeat (injection Heq as Heq);
    apply rev_chars_inj; exact Heq.
Qed.

(** ** The time stamp *)

Lemma string_of_uint_digits (d : Decimal.uint) :
  digits_only (NilEmpty.string_of_uint d) = true.
Proof. induction d; simpl; try rewrite IHd; reflexivity. Qed.

Lemma String_of_int_digits (z : Z) :
  0 <= z -> digits_only (String_of_int z) = true.
Proof.
  intros Hz. unfold String_of_int. destruct z as [|p|p]; [reflexivity| |lia].
  cbn [Z.to_int NilZero.string_of_int]. unfold NilZero.string_of_uint.
  destruct (Pos.to_uint p) eqn:Hp; try reflexivity;
    rewrite <- Hp; apply string_of_uint_digits.
Qed.

Lemma String_of_int_inj (a b : Z) :
  String_of_int a = String_of_int b -> a = b.
Proof.
  unfold String_of_int. intros H.
  apply DecimalZ.to_int_inj.
  assert (Hnn : forall z, Z.to_int z <> Decimal.Pos Decimal.Nil
                          /\ Z.to_int z <> Decimal.Neg Decimal.Nil).
  { intros [|p|p]; cbn; (split; [|]); try discriminate;
      intros [= Hp]; exact (DecimalPos.Unsigned.to_uint_nonnil p Hp). }
  destruct (Hnn a) as (Ha1 & Ha2). destruct (Hnn b) as (Hb1 & Hb2).
  assert (Hs : Some (Z.to_int a) = Some (Z.to_int b)).
  { rewrite <- (NilZero.isi _ Ha1 Ha2), <- (NilZero.isi _ Hb1 Hb2), H.
    reflexivity. }
  injection Hs as Hs. exact Hs.
Qed.

(** Two digit strings followed by the same separator and then anything
    are equal as soon as the whole strings are. *)
Lemma digits_then_separator (c : ascii) (a a' r r' : string) :
  is_digit c = false ->
  digits_only a = true -> digits_only a' = true ->
  (a ++ String c r)%string = (a' ++ String c r')%string ->
  a = a' /\ r = r'.
Proof.
  intros Hc. revert a'. induction a as [|x a IH]; intros [|x' a'] Ha Ha' Heq;
    cbn in Heq, Ha, Ha'.
  - injection Heq as Heq. split; [reflexivity | exact Heq].
  - injection Heq as Hx _. subst x'.
    rewrite Hc in Ha'. discriminate Ha'.
  - injection Heq as Hx _. subst x.
    rewrite Hc in Ha. discriminate Ha.
  - injection Heq as Hx Heq. subst x'.
    apply andb_prop in Ha. apply andb_prop in Ha'.
    destruct (IH a' (proj2 Ha) (proj2 Ha') Heq) as (Haa & Hrr).
    subst a'. split; [reflexivity | exact Hrr].
Qed.

(** X11: the time stamp is unambiguous although nothing is zero padded:
    when the six numbers are non-negative (they are unsigned in the
    library), two parser states with the same [timeUTC] text have the same
    year, month, day, hour, minute and second. *)
Theorem timeUTC_determines_fields (g1 g2 : TinyGPSPlus) :
  Forall (fun z => 0 <= z) (time_fields g1) ->
  Forall (fun z => 0 <= z) (time_fields g2) ->
  format_timeUTC g1 = format_timeUTC g2 ->
  time_fields g1 = time_fields g2.
Proof.
  unfold time_fields, format_timeUTC. intros H1 H2 Heq.
  repeat match goal with
         | H : Forall _ (_ :: _) |- _ =>
             let Hz := fresh "Hz" in
             let Hr := fresh "Hr" in
             inversion H as [|? ? Hz Hr]; subst; clear H
         | H : Forall _ [] |- _ => clear H
         end.
  rewrite !append_assoc in Heq. cbn [append] in Heq.
  repeat match type of Heq with
         | (String_of_int ?a ++ String ?c _)%string
           = (String_of_int ?b ++ String ?c _)%string =>
             let Hab := fresh "Hab" in
             apply (digits_then_separator c) in Heq;
               [destruct Heq as (Hab & Heq); apply String_of_int_inj in Hab
               | reflexivity
               | apply String_of_int_digits; assumption
               | apply String_of_int_digits; assumption]
         end.
  apply String_of_int_inj in Heq.
  congruence.
Qed.

(** ** The satellite count *)

(** X13: the satellite count kept and uploaded always lies in the range of
    [int]; it is the count the parser reports when that is below 2^31, and
    the count minus 2^32 when the parser reports 2^31 or more. *)
Theorem satellites_in_int_range (g : TinyGPSPlus) :
  - 2 ^ 31 <= satellites (snapshot_gps g) < 2 ^ 31
  /\ (0 <= satellites_value g < 2 ^ 31 ->
      satellites (snapshot_gps g) = satellites_value g)
  /\ (2 ^ 31 <= satellites_value g < 2 ^ 32 ->
      satellites (snapshot_gps g) = satellites_value g - 2 ^ 32).
Proof.
  cbn [satellites snapshot_gps]. unfold int_of_uint32.
  assert (Hm : 0 <= satellites_value g mod 2 ^ 32 < 2 ^ 32)
    by (apply Z.mod_pos_bound; lia).
  split; [|split].
  - destruct (Z.ltb_spec (satellites_value g mod 2 ^ 32) (2 ^ 31)); lia.
  - intros Hs. rewrite Z.mod_small by lia.
    destruct (Z.ltb_spec (satellites_value g) (2 ^ 31)); lia.
  - intros Hs. rewrite Z.mod_small by lia.
    destruct (Z.ltb_spec (satellites_value g) (2 ^ 31)); lia.
Qed.

(** ** The callback and the uploads *)

Lemma same_state_trans (w1 w2 w3 : World) :
  same_state w1 w2 -> same_state w2 w3 -> same_state w1 w3.
Proof.
  intros (A1 & A2 & A3 & A4) (B1 & B2 & B3 & B4).
  repeat split; congruence.
Qed.

Lemma step_without_results (e : Env) (w : World) :
  same_state (step e w) (step (without_results e) w)
  /\ uploads (emitted w (step e w))
     = uploads (emitted w (step (without_results e) w)).
Proof.
  destruct (pc w) eqn:Hpc;
    try (assert (Hsame : step (without_results e) w = step e w)
           by (unfold step; rewrite Hpc; reflexivity);
         rewrite Hsame; split; [apply same_state_refl | reflexivity]).
  assert (Hrx : gpsSerial w ++ gpsSerial_arrived (without_results e)
                = gpsSerial w ++ gpsSerial_arrived e) by reflexivity.
  destruct (loop_port e (receive e w)) as (P1 & G1 & R1).
  destruct (loop_port (without_results e) (receive (without_results e) w))
    as (P2 & G2 & R2).
  cbn [receive pc gps gpsSerial] in P1, G1, P2, G2. rewrite Hrx in G2.
  rewrite (step_InLoop e w Hpc), (step_InLoop (without_results e) w Hpc).
  destruct (step_cases e w)
    as [(_ & _ & Hready & Hel & _) | (Hrun & _)].
  - assert (Hfire : fst (shouldTick (millis e) (lastSendTime (globals w)))
                    = true) by (rewrite shouldTick_fst; exact Hel).
    destruct (step_fires e w Hpc Hready Hfire) as (_ & _ & L1 & U1).
    destruct (step_fires (without_results e) w Hpc Hready Hfire)
      as (_ & _ & L2 & U2).
    rewrite (step_InLoop e w Hpc) in L1, U1.
    rewrite (step_InLoop (without_results e) w Hpc) in L2, U2.
    rewrite G1 in L1, U1. rewrite G2 in L2, U2.
    split; [|rewrite U1, U2; reflexivity].
    repeat split; [congruence | rewrite L1, L2; reflexivity
                  | congruence | congruence].
  - unfold runs_block in Hrun. rewrite Hpc in Hrun.
    destruct (step_idles e w Hpc Hrun) as (_ & L1 & U1).
    destruct (step_idles (without_results e) w Hpc Hrun) as (_ & L2 & U2).
    rewrite (step_InLoop e w Hpc) in L1, U1.
    rewrite (step_InLoop (without_results e) w Hpc) in L2, U2.
    split; [|rewrite U1, U2; reflexivity].
    repeat split; congruence.
Qed.

(** X12: what the callback is handed never changes what the program does
    next: a run in which [app.loop()] delivers any results (events, debug
    text, errors, payloads) goes through the same phases, global variables
    and parser states, and makes the same database writes in the same
    order, as the run in which it delivers none. *)
Theorem results_never_change_uploads (es : list Env) (w : World) :
  same_state (run es w) (run (map without_results es) w)
  /\ uploads (emitted w (run es w))
     = uploads (emitted w (run (map without_results es) w)).
Proof.
  assert (Hgen : forall (l : list Env) (w1 w2 : World),
            same_state w1 w2 ->
            same_state (run l w1) (run (map without_results l) w2)
            /\ uploads (emitted w1 (run l w1))
               = uploads (emitted w2 (run (map without_results l) w2))).
  { induction l as [|e l IH]; intros w1 w2 Hsame; cbn [run map].
    - rewrite !emitted_refl. split; [exact Hsame | reflexivity].
    - destruct (step_without_results e w1) as (Hs1 & Hu1).
      destruct (step_same_state (without_results e) w1 w2 Hsame)
        as (Hs2 & Hu2).
      destruct (IH _ _ (same_state_trans _ _ _ Hs1 Hs2)) as (Hrun & Hups).
      split; [exact Hrun|].
      destruct (step_prefix e w1) as (a1 & Ha1).
      destruct (step_prefix (without_results e) w2) as (a2 & Ha2).
      destruct (run_prefix l (step e w1)) as (b1 & Hb1).
      destruct (run_prefix (map without_results l)
                  (step (without_results e) w2)) as (b2 & Hb2).
      rewrite (emitted_trans w1 _ _ _ _ Ha1 Hb1).
      rewrite (emitted_trans w2 _ _ _ _ Ha2 Hb2).
      rewrite !uploads_app, Hu1, Hu2, Hups. reflexivity. }
  apply Hgen. apply same_state_refl.
Qed.

(** ** Where the writes go *)

Lemma out_step (e : Env) (w : World) :
  out (step e w) = out w ++ emitted w (step e w).
Proof.
  destruct (step_prefix e w) as (evs & H).
  rewrite (emitted_app _ _ _ H). exact H.
Qed.

Lemma prefix_empty (s : string) : String.prefix EmptyString s = true.
Proof. destruct s; reflexivity. Qed.

(** X15: nothing is ever written outside the [UsersData/] namespace:
    every path the program has written to, in any run from reset, begins
    with "UsersData/". *)
Theorem writes_stay_under_UsersData (g : TinyGPSPlus) (es : list Env) :
  Forall (fun u => String.prefix "UsersData/" (fst u) = true)
    (uploads (out (run es (boot g)))).
Proof.
  assert (Hinv : forall (l : list Env) (w : World),
            Forall (fun u => String.prefix "UsersData/" (fst u) = true)
              (uploads (out w)) ->
            Forall (fun u => String.prefix "UsersData/" (fst u) = true)
              (uploads (out (run l w)))).
  { induction l as [|e l IH]; intros w Hw; cbn [run]; [exact Hw|].
    apply IH. rewrite out_step, uploads_app. apply Forall_app.
    split; [exact Hw|].
    destruct (step_cases e w)
      as [(_ & _ & _ & _ & _ & _ & Hup) | (_ & _ & Hup)]; rewrite Hup.
    - apply Forall_app. split.
      + cbn [uploads send_bme upload_of].
        repeat (apply Forall_cons; [cbn; apply prefix_empty|]). apply Forall_nil.
      + destruct (location_isValid (gps (step e w)));
          cbn [uploads send_gps upload_of];
          repeat (apply Forall_cons; [cbn; apply prefix_empty|]); apply Forall_nil.
    - apply Forall_nil. }
  apply Hinv. constructor.
Qed.

(** ** The path variables while the uid is stable *)


End Further.

(** * Further runs on the bench *)

Lemma WiFi_wait_retries_witness :
  pc (run [setup_env false; setup_env false; setup_env false]
        (boot (gps_api := Bench.receiver) false))
  = WiFi_wait.
Proof.
  refine (proj1 (WiFi_wait_retries (gps_api := Bench.receiver) false
                   (setup_env false) [setup_env false; setup_env false]
                   eq_refl _)).
  repeat constructor.
Defined.

Lemma setup_trace_witness :
  pc (run [setup_env false; setup_env false; setup_env true]
        (boot (gps_api := Bench.receiver) false))
  = InLoop.
Proof.
  refine (proj1 (setup_trace (gps_api := Bench.receiver) false
                   (setup_env false) (setup_env true) [setup_env false]
                   eq_refl _ eq_refl)).
  repeat constructor.
Defined.

Lemma consecutive_ticks_gap_witness :
  sendInterval <= ulong_sub 25000 10000.
Proof.
  refine (consecutive_ticks_gap (gps_api := Bench.receiver)
            (Bench.env 10000 "abc123" []) (Bench.env 25000 "abc123" [])
            [Bench.env 15000 "abc123" []] Bench.ready_world eq_refl _ _ _).
  - vm_compute. discriminate.
  - reflexivity.
  - vm_compute. discriminate.
Defined.

Lemma no_upload_before_ready_witness :
  uploads
    (emitted Bench.ready_world
       (run [Bench.without_sensor; Bench.without_sensor] Bench.ready_world))
  = [].
Proof.
  refine (proj1 (no_upload_before_ready (gps_api := Bench.receiver)
                   [Bench.without_sensor; Bench.without_sensor]
                   Bench.ready_world _)).
  repeat constructor.
Defined.

Lemma gps_stream_in_order_witness :
  gps (run [Bench.env 1000 "abc123" [x24]; Bench.env 2000 "abc123" [x41]]
         Bench.ready_world)
  = true.
Proof.
  exact (proj1 (gps_stream_in_order (gps_api := Bench.receiver)
                  (Bench.env 1000 "abc123" [x24])
                  [Bench.env 2000 "abc123" [x41]] Bench.ready_world eq_refl)).
Defined.

Lemma path_determines_uid_and_field_witness :
  uid (update_paths "abc123") = uid (update_paths "abc123").
Proof.
  refine (proj2 (path_determines_uid_and_field "abc123" "abc123" 4 4 _ _ eq_refl));
    lia.
Defined.

Lemma timeUTC_determines_fields_witness :
  time_fields (gps_api := Bench.receiver) true
  = time_fields (gps_api := Bench.receiver) false.
Proof.
  refine (timeUTC_determines_fields (gps_api := Bench.receiver) true false
            _ _ eq_refl);
    repeat constructor; discriminate.
Defined.

Lemma satellites_in_int_range_witness :
  satellites (snapshot_gps (gps_api := Bench.receiver) true) = 7.
Proof.
  destruct (satellites_in_int_range (gps_api := Bench.receiver) true)
    as (_ & Hsmall & _).
  apply Hsmall. cbn. lia.
Defined.

